(** * RIS analysis: the processing block of [app1.py]

    A shallow embedding of the data reconciliation and aggregation core
    of the RIS (Regional Inventory Storage) analysis tool: the text
    helpers [normalize], [normalize_text] and [safe_correct], the join
    with the fulfillment-center table, the two classification rules and
    the pivot tables with their totals.

    Conventions of the embedding.
    - Text is Python [str] restricted to the code points U+0000..U+00FF:
      a character is an [ascii] read as its code point, so the
      non-breaking space of the source is the character 160.  The
      character classes below are those of CPython on that range.
    - A cell of a text column is a string or missing (pandas [NaN]).
    - Quantities are whole numbers, summed exactly.
    - The order file has none of the columns that the run adds
      ([fulfillment_state], [cluster], [RIS Status], [Brand],
      [RIS_by_Table]).
    - The pandas operations follow pandas 2.x: [groupby], and with it
      [pivot_table], leaves out the rows with a missing key; [merge]
      matches a missing key with a missing key. *)

From Stdlib Require Import Ascii String ZArith QArith Lia.
From stdpp Require Import gmap strings list sorting.

Local Open Scope Z_scope.

(** ** Characters *)

Module Char.

Definition code (c : ascii) : N := N_of_ascii c.

Definition between (lo hi : N) (c : ascii) : bool :=
  ((lo <=? code c) && (code c <=? hi))%N.

Definition space : ascii := ascii_of_N 32.
Definition nbsp : ascii := ascii_of_N 160.

(** [str.isspace], which is also the class [\s] of [re] and what
    [str.strip] removes: TAB..CR, FS..US, space, NEL and NBSP. *)
Definition isspace (c : ascii) : bool :=
  between 9 13 c || between 28 32 c || (code c =? 133)%N || (code c =? 160)%N.

(** The class [\w] of [re] on a [str] pattern: alphanumeric or [_]. *)
Definition isword (c : ascii) : bool :=
  between 48 57 c || between 65 90 c || (code c =? 95)%N || between 97 122 c
  || (code c =? 170)%N || between 178 179 c || (code c =? 181)%N
  || between 185 186 c || between 188 190 c
  || between 192 214 c || between 216 246 c || between 248 255 c.

Definition has_lower (c : ascii) : bool :=
  between 65 90 c || between 192 214 c || between 216 222 c.

Definition has_upper (c : ascii) : bool :=
  between 97 122 c || between 224 246 c || between 248 254 c.

(** [str.lower] on one character. *)
Definition lower (c : ascii) : ascii :=
  if has_lower c then ascii_of_N (code c + 32) else c.

(** [str.upper] on one character.  The sharp s becomes two letters.
    The capitals of U+00B5 and U+00FF are U+039C and U+0178; no
    string of the model contains those two and no other character is
    mapped to them, so they are written here as the characters 181 and
    255 themselves: equality of upper-cased texts is unchanged. *)
Definition upper (c : ascii) : string :=
  if has_upper c then String (ascii_of_N (code c - 32)) EmptyString
  else if (code c =? 223)%N then "SS"%string
  else String c EmptyString.

End Char.

(** ** Strings: the [str] methods and regular expressions of the source *)

Module PyStr.

Fixpoint map (f : ascii -> ascii) (s : string) : string :=
  match s with
  | EmptyString => EmptyString
  | String c s' => String (f c) (map f s')
  end.

Fixpoint filter (p : ascii -> bool) (s : string) : string :=
  match s with
  | EmptyString => EmptyString
  | String c s' => if p c then String c (filter p s') else filter p s'
  end.

Fixpoint lstrip (s : string) : string :=
  match s with
  | EmptyString => EmptyString
  | String c s' => if Char.isspace c then lstrip s' else s
  end.

Fixpoint rstrip (s : string) : string :=
  match s with
  | EmptyString => EmptyString
  | String c s' =>
      match rstrip s' with
      | EmptyString => if Char.isspace c then EmptyString else String c EmptyString
      | r => String c r
      end
  end.

(** [s.strip()] *)
Definition strip (s : string) : string := rstrip (lstrip s).

(** [s.lower()] *)
Definition lower (s : string) : string := map Char.lower s.

(** [s.upper()] *)
Fixpoint upper (s : string) : string :=
  match s with
  | EmptyString => EmptyString
  | String c s' => Char.upper c +:+ upper s'
  end.

(** [s.replace(old, new)] for one-character [old] and [new]. *)
Definition replace_char (old new : ascii) (s : string) : string :=
  map (fun c => if Ascii.eqb c old then new else c) s.

(** [s.replace(old, "")] for a one-character [old]. *)
Definition remove_char (old : ascii) (s : string) : string :=
  filter (fun c => negb (Ascii.eqb c old)) s.

(** [re.sub(r"[^\w\s]", "", s)] *)
Definition drop_punctuation (s : string) : string :=
  filter (fun c => Char.isword c || Char.isspace c) s.

(** [re.sub(r"\s+", " ", s)]; [in_run] tells that the previous
    character was already part of the run being replaced. *)
Fixpoint collapse_spaces (in_run : bool) (s : string) : string :=
  match s with
  | EmptyString => EmptyString
  | String c s' =>
      if Char.isspace c
      then if in_run then collapse_spaces true s'
           else String Char.space (collapse_spaces true s')
      else String c (collapse_spaces false s')
  end.

End PyStr.

(** ** Cells *)

Inductive cell : Type :=
| NaN
| Str (s : string).

#[global] Instance cell_eq_dec : EqDecision cell.
Proof. solve_decision. Defined.

(** [pd.isna] *)
Definition isna (c : cell) : bool :=
  match c with NaN => true | Str _ => false end.

(** [str(x)], also what [astype(str)] does to each value. *)
Definition py_str (c : cell) : string :=
  match c with NaN => "nan" | Str s => s end.

(** ** Helper functions of the source *)

(** [normalize] on one value of the column: text, stripped, upper-cased,
    the empty text replaced by [pd.NA] (here [None]). *)
Definition normalize_value (c : cell) : option string :=
  let s := PyStr.upper (PyStr.strip (py_str c)) in
  if decide (s = "") then None else Some s.

(** [normalize(s)]: the join key of a whole column. *)
Definition normalize (s : list cell) : list (option string) :=
  normalize_value <$> s.

Definition normalize_text (s : cell) : string :=
  if isna s then ""
  else
    let s := PyStr.replace_char Char.nbsp Char.space (py_str s) in
    let s := PyStr.strip (PyStr.lower s) in
    let s := PyStr.drop_punctuation s in
    let s := PyStr.strip (PyStr.collapse_spaces false s) in
    PyStr.remove_char Char.space s.

Definition safe_correct (raw : cell) (canon_map : gmap string string) : cell :=
  let norm := normalize_text raw in
  match canon_map !! norm with
  | Some canonical => Str canonical
  | None => raw
  end.

(** The dictionary comprehension of step 2, one entry at a time; a later
    state with the same normalized text replaces the earlier one. *)
Definition canon_entry (m : gmap string string) (s : string) : gmap string string :=
  if decide (normalize_text (Str s) = "") then m
  else <[normalize_text (Str s) := PyStr.strip s]> m.

(** [FC["State"].dropna().astype(str).str.strip().tolist()] *)
Definition fc_states (State : list cell) : list string :=
  (fun c => PyStr.strip (py_str c)) <$> filter (fun c => isna c = false) State.

Definition canon_map (State : list cell) : gmap string string :=
  foldl canon_entry ∅ (fc_states State).

(** ** The three input tables *)

(** A table is its header and its rows.  The rows are records of the
    columns the program reads; the field of a column that the header
    does not list is never read. *)
Record table (R : Type) : Type := Table {
  columns : list string;
  rows : list R }.
Arguments Table {R} _ _.
Arguments columns {R} _.
Arguments rows {R} _.

(** A row of [Original.xlsx]. *)
Record order : Type := Order {
  o_fulfillment_center_id : cell;     (* "fulfillment-center-id" *)
  o_ship_state : cell;                (* "ship-state" *)
  o_ship_state_original : cell;       (* "ship-state_original", when present *)
  o_sku : cell;                       (* "sku", when present *)
  o_quantity_shipped : Z;             (* "quantity-shipped" *)
  o_Inferred_Receive_Centre : cell }. (* "Inferred_Receive_Centre", when present *)

(** A row of [FC Stat.xlsx]. *)
Record fc_row : Type := FcRow {
  FC : cell;
  State : cell;
  Cluster : cell }.

(** A row of [PM.iloc[:, 2:7]], of which the first and fifth columns are
    read. *)
Record pm_row : Type := PmRow {
  lookup_key : cell;
  pm_Brand : cell }.

Inductive status : Type := RIS | Non_RIS.

#[global] Instance status_eq_dec : EqDecision status.
Proof. solve_decision. Defined.

Definition status_label (s : status) : string :=
  match s with RIS => "RIS" | Non_RIS => "Non RIS" end.

(** A row of [Working] once every step has added its columns. *)
Record line : Type := Line {
  fulfillment_center_id : cell;
  ship_state_original : cell;
  ship_state : cell;
  quantity_shipped : Z;
  fulfillment_state : cell;
  cluster : cell;
  RIS_Status : status;
  Brand : cell;
  RIS_by_Table : status }.

(** ** Joins *)

(** [left.merge(right, how="left")] on one key: the left rows keep their
    order, a left row is repeated for every right row with an equal key
    and kept once, with nothing attached, when there is none.  Equality
    on the key type makes a missing key equal to a missing key. *)
Definition merge_left {A B K : Type} `{EqDecision K}
    (left_on : A -> K) (right_on : B -> K)
    (left : list A) (right : list B) : list (A * option B) :=
  a ← left;
  match filter (fun b => right_on b = left_on a) right with
  | [] => [(a, None)]
  | bs => (fun b => (a, Some b)) <$> bs
  end.

(** The column a merge adds: the value of the matching right row, [NaN]
    when there was none. *)
Definition attached {B : Type} (col : B -> cell) (b : option B) : cell :=
  from_option col NaN b.

(** Step 1: the join with the FC table on the normalized codes. *)
Definition merge_fc (Working : list order) (FC_lookup : list fc_row)
    : list (order * option fc_row) :=
  merge_left (fun w => normalize_value (o_fulfillment_center_id w))
             (fun f => normalize_value (FC f))
             Working FC_lookup.

(** ** Classification *)

(** What either side of the comparison of step 3 is:
    [str(x).strip().replace(" ", "")]. *)
Definition compared (x : cell) : string :=
  PyStr.remove_char Char.space (PyStr.strip (py_str x)).

(** Step 3: the lambda that fills ["RIS Status"]. *)
Definition ris_status (ship_state_original fulfillment_state : cell) : status :=
  if decide (compared ship_state_original = compared fulfillment_state)
  then RIS else Non_RIS.

(** Step 6. *)
Definition LOCAL_MAP : gmap string (list string) :=
  <["DED3" := ["DEL4"; "DEL5"; "DED4"]]>
  (<["DED5" := ["DEL4"; "DEL5"; "DED4"]]>
  (<["ISK3" := ["BOM5"; "BOM7"; "PNQ3"]]>
  (<["BLR4" := ["BLR7"; "BLR8"]]> ∅))).

(** [rc] is [row.get("Inferred_Receive_Centre")] and [fc_id] is
    [row.get("fulfillment-center-id", "")]. *)
Definition ris_status_from_ixd (rc fc_id : cell) : status :=
  let fc := PyStr.upper (PyStr.strip (py_str fc_id)) in
  match rc with
  | NaN => Non_RIS
  | Str rc =>
      match LOCAL_MAP !! rc with
      | None => Non_RIS
      | Some local => if decide (fc ∈ local) then RIS else Non_RIS
      end
  end.

(** ** Steps 1 to 4 and the classification of step 6 *)

Section Enrich.
Variable Working : table order.
Variable FC_table : list fc_row.
Variable PM_lookup : list pm_row.

Definition has_column (c : string) : bool :=
  bool_decide (c ∈ columns Working).

(** ["ship-state_original"] is the backup made by step 2, unless the
    input already has a column of that name. *)
Definition backup (w : order) : cell :=
  if has_column "ship-state_original" then o_ship_state_original w
  else o_ship_state w.

Definition receive_centre (w : order) : cell :=
  if has_column "Inferred_Receive_Centre" then o_Inferred_Receive_Centre w
  else NaN.

Definition enrich : list line :=
  let canon := canon_map (State <$> FC_table) in
  '(w, f) ← merge_fc (rows Working) FC_table;
  '(_, p) ← merge_left o_sku lookup_key [w] PM_lookup;
  [ {| fulfillment_center_id := o_fulfillment_center_id w;
       ship_state_original := backup w;
       ship_state := safe_correct (backup w) canon;
       quantity_shipped := o_quantity_shipped w;
       fulfillment_state := attached State f;
       cluster := attached Cluster f;
       RIS_Status := ris_status (backup w) (attached State f);
       Brand := attached pm_Brand p;
       RIS_by_Table :=
         ris_status_from_ixd (receive_centre w) (o_fulfillment_center_id w) |} ].
End Enrich.

(** ** Frames of numbers *)

(** The pivot tables: a header and, for each index entry, one number per
    column. *)
Definition frame (I : Type) : Type := table (I * list Z).

Definition sumZ (l : list Z) : Z := foldr Z.add 0 l.

Fixpoint index_of (c : string) (cols : list string) : option nat :=
  match cols with
  | [] => None
  | c' :: cols' => if String.eqb c' c then Some 0%nat else S <$> index_of c cols'
  end.

(** [c in cols] *)
Definition label_in (c : string) (cols : list string) : bool :=
  existsb (String.eqb c) cols.

(** The number of a row under the column labelled [c]; [None] when the
    frame has no such column ([KeyError]). *)
Definition value {I : Type} (cols : list string) (r : I * list Z) (c : string)
    : option Z :=
  j ← index_of c cols; r.2 !! j.

(** The same, reading a column that the frame lacks as zeros. *)
Definition value0 {I : Type} (cols : list string) (r : I * list Z) (c : string) : Z :=
  default 0 (value cols r c).

(** Column-wise sums of some rows of a frame of [n] columns. *)
Definition col_sums {I : Type} (n : nat) (rs : list (I * list Z)) : list Z :=
  (fun j => sumZ ((fun r : I * list Z => default 0 (r.2 !! j)) <$> rs)) <$> seq 0 n.

(** [t[c] = f(row)]: a new last column, or new values for the column
    when the frame has it already. *)
Definition set_column {I : Type} (c : string) (f : I * list Z -> Z) (t : frame I)
    : frame I :=
  match index_of c (columns t) with
  | Some j => Table (columns t) ((fun r => (r.1, <[j := f r]> r.2)) <$> rows t)
  | None => Table (columns t ++ [c]) ((fun r => (r.1, r.2 ++ [f r])) <$> rows t)
  end.

(** [t[cols]] for labels [cols] of the frame. *)
Definition select {I : Type} (cols : list string) (t : frame I) : frame I :=
  Table cols ((fun r => (r.1, (fun c => value0 (columns t) r c) <$> cols)) <$> rows t).

Section GroupBy.
Context {I K : Type} `{EqDecision K}.
Variable le : K -> K -> bool.

(** The distinct keys, in increasing order. *)
Definition sorted_keys (ks : list K) : list K :=
  merge_sort (fun a b => Is_true (le a b)) (remove_dups ks).

(** [t.groupby(level=...).sum()], the levels given by [key]. *)
Definition groupby_sum (key : I -> K) (t : frame I) : frame K :=
  Table (columns t)
    ((fun k => (k, col_sums (length (columns t))
                     (filter (fun r => key r.1 = k) (rows t))))
       <$> sorted_keys ((fun r => key r.1) <$> rows t)).
End GroupBy.

(** [t.sort_index()] *)
Definition sort_index {I : Type} (le : I -> I -> bool) (t : frame I) : frame I :=
  Table (columns t) (merge_sort (fun a b => Is_true (le a.1 b.1)) (rows t)).

(** ** Orders on the index *)

Definition key : Type := string * string * string.

Definition key_compare (a b : key) : comparison :=
  match String.compare a.1.1 b.1.1 with
  | Eq => match String.compare a.1.2 b.1.2 with
          | Eq => String.compare a.2 b.2
          | o => o
          end
  | o => o
  end.

Definition key_leb (a b : key) : bool :=
  match key_compare a b with Gt => false | _ => true end.

Definition pair_leb (a b : string * string) : bool :=
  match String.compare a.1 b.1 with
  | Eq => String.leb a.2 b.2
  | Lt => true
  | Gt => false
  end.

(** ** Pivot tables *)

Section Pivot.
Context {I : Type} `{EqDecision I}.
Variable le : I -> I -> bool.
(** The index of a line, [None] when one of its index columns is
    missing. *)
Variable index : line -> option I.
(** The column of [Working] given as [columns=]. *)
Variable status_of : line -> status.

(** The quantity of the lines of a group that have a status. *)
Definition quantity (data : list line) (i : I) (c : status) : Z :=
  sumZ (quantity_shipped <$>
          filter (fun l => index l = Some i /\ status_of l = c) data).

(** The statuses that occur, in the order of their labels. *)
Definition statuses (data : list line) : list status :=
  filter (fun c => Exists (fun l => is_Some (index l) /\ status_of l = c) data)
         [Non_RIS; RIS].

(** [pd.pivot_table(Working, values="quantity-shipped", index=...,
    columns=..., aggfunc="sum", fill_value=0)] *)
Definition pivot_table (data : list line) : frame I :=
  Table (status_label <$> statuses data)
    ((fun i => (i, quantity data i <$> statuses data))
       <$> sorted_keys le (omap index data)).
End Pivot.

Definition cell_text (c : cell) : option string :=
  match c with NaN => None | Str s => Some s end.

(** [index=["Brand", "fulfillment_state", "ship-state"]] *)
Definition detail_index (l : line) : option key :=
  b ← cell_text (Brand l);
  f ← cell_text (fulfillment_state l);
  s ← cell_text (ship_state l);
  Some (b, f, s).

(** [index=["Brand"]] *)
Definition brand_index (l : line) : option string := cell_text (Brand l).

(** ** Step 5: the detailed pivot and its totals *)

(** [t["Grand Total"] = t.sum(axis=1)] *)
Definition add_grand_total {I : Type} (t : frame I) : frame I :=
  set_column "Grand Total" (fun r => sumZ r.2) t.

Definition detailed_pivot (Working : list line) : frame key :=
  add_grand_total (pivot_table key_leb detail_index RIS_Status Working).

Section Totals.
(** The pivot with its ["Grand Total"] column. *)
Variable pivot : frame key.

Definition brand_totals : frame key :=
  let sums := groupby_sum String.leb (fun i : key => i.1.1) pivot in
  Table (columns sums)
    ((fun r => ((r.1, r.1 +:+ " Total", ""), r.2)) <$> rows sums).

Definition state_totals : frame key :=
  let sums := groupby_sum pair_leb (fun i : key => i.1) pivot in
  Table (columns sums)
    ((fun r => ((r.1.1, r.1.2 +:+ " Total", ""), r.2)) <$> rows sums).

(** [pivot.sum()], named [("Grand Total", "", "")]. *)
Definition grand_total : key * list Z :=
  (("Grand Total", "", ""), col_sums (length (columns pivot)) (rows pivot)).

(** [pd.concat([pivot, state_totals, brand_totals]).sort_index()]
    followed by the grand total. *)
Definition with_totals : frame key :=
  let combined :=
    Table (columns pivot)
          (rows pivot ++ rows state_totals ++ rows brand_totals) in
  Table (columns pivot) (rows (sort_index key_leb combined) ++ [grand_total]).
End Totals.

Definition detailed_pivot_with_totals (Working : list line) : frame key :=
  with_totals (detailed_pivot Working).

(** ** Step 6: the inventory placement pivot *)

(** [if c not in t.columns: t[c] = 0] *)
Definition ensure_column {I : Type} (c : string) (t : frame I) : frame I :=
  if label_in c (columns t) then t else set_column c (fun _ => 0) t.

(** [t[[col for col in column_order if col in t.columns]]] *)
Definition reorder {I : Type} (column_order : list string) (t : frame I) : frame I :=
  select (List.filter (fun c => label_in c (columns t)) column_order) t.

Definition inventory_pivot (Working : list line) : frame key :=
  let t := pivot_table key_leb detail_index RIS_by_Table Working in
  let t := ensure_column "Non RIS" (ensure_column "RIS" t) in
  add_grand_total (reorder ["Non RIS"; "RIS"] t).

Definition inventory_pivot_with_totals (Working : list line) : frame key :=
  with_totals (inventory_pivot Working).

(** ** The brand-level summaries *)

(** [pd.pivot_table(..., index=["Brand"], margins=True,
    margins_name="Grand Total")].  The margins are sums over the lines
    that have a brand: the column ["Grand Total"] by brand, the row
    ["Grand Total"] by status and over all of them.  A brand called
    ["Grand Total"] is refused ([ValueError], here [None]); with no line
    left the empty table comes back without margins. *)
Section Margins.
Variable status_of : line -> status.
Variable Working : list line.

Definition with_brand : list line :=
  filter (fun l => is_Some (brand_index l)) Working.

Definition brand_quantity (b : string) : Z :=
  sumZ (quantity_shipped <$> filter (fun l => brand_index l = Some b) Working).

Definition status_quantity (c : status) : Z :=
  sumZ (quantity_shipped <$> filter (fun l => status_of l = c) with_brand).

Definition pivot_table_margins : option (frame string) :=
  let t := pivot_table String.leb brand_index status_of Working in
  match rows t with
  | [] => Some t
  | _ =>
      if decide ("Grand Total" ∈ (rows t).*1) then None
      else Some (Table (columns t ++ ["Grand Total"])
             (((fun r => (r.1, r.2 ++ [brand_quantity r.1])) <$> rows t)
              ++ [("Grand Total",
                   (status_quantity <$> statuses brand_index status_of Working)
                     ++ [sumZ (quantity_shipped <$> with_brand)])]))
  end.
End Margins.

(** A [float] of the percentage columns.  A finite quotient is kept as
    the exact fraction it rounds. *)
Inductive float : Type :=
| Finite (q : Q)
| Inf
| NegInf
| NotANumber.

(** [a / b] on the numbers of two columns. *)
Definition truediv (a b : Z) : float :=
  if decide (b = 0)
  then if decide (a = 0) then NotANumber
       else if decide (0 < a) then Inf else NegInf
  else Finite (inject_Z a / inject_Z b)%Q.

(** [fillna(0)] *)
Definition fillna_0 (x : float) : float :=
  match x with NotANumber => Finite 0%Q | _ => x end.

(** A row of a brand-level summary. *)
Record summary_row : Type := SummaryRow {
  s_Brand : string;
  s_Non_RIS : Z;
  s_RIS : Z;
  s_Grand_Total : Z;
  s_Non_RIS_pct : float;    (* "Non RIS%" *)
  s_RIS_pct : float }.      (* "RIS%" *)

(** A row with its two percentage columns,
    [t["Non RIS%"] = t["Non RIS"] / t["Grand Total"]] and the like for
    ["RIS%"], after their [fillna(0)]. *)
Definition summary (brand : string) (non_ris ris total : Z) : summary_row :=
  {| s_Brand := brand;
     s_Non_RIS := non_ris;
     s_RIS := ris;
     s_Grand_Total := total;
     s_Non_RIS_pct := fillna_0 (truediv non_ris total);
     s_RIS_pct := fillna_0 (truediv ris total) |}.

(** [None] when one of the three columns that the percentages read is
    not in the frame ([KeyError]). *)
Definition summary_of_row (cols : list string) (r : string * list Z)
    : option summary_row :=
  non_ris ← value cols r "Non RIS";
  ris ← value cols r "RIS";
  total ← value cols r "Grand Total";
  Some (summary r.1 non_ris ris total).

Definition with_percentages (t : frame string) : option (list summary_row) :=
  mapM (summary_of_row (columns t)) (rows t).

Definition brand_summary (Working : list line) : option (list summary_row) :=
  t ← pivot_table_margins RIS_Status Working;
  if label_in "Non RIS" (columns t) && label_in "RIS" (columns t)
     && label_in "Grand Total" (columns t)
  then with_percentages t
  else None.

Definition inventory_brand_summary (Working : list line) : option (list summary_row) :=
  t ← pivot_table_margins RIS_by_Table Working;
  let t := ensure_column "Non RIS" (ensure_column "RIS" t) in
  let t := reorder ["Non RIS"; "RIS"; "Grand Total"] t in
  let t := if label_in "Grand Total" (columns t) then t else add_grand_total t in
  with_percentages t.

(** ** One run of the processing block *)

Definition key_col_name : string := "fulfillment-center-id".
Definition required_cols : list string := ["FC"; "State"; "Cluster"].

(** [[c for c in required_cols if c not in FC.columns]] *)
Definition missing_columns (FC_columns : list string) : list string :=
  filter (fun c => c ∉ FC_columns) required_cols.

(** [repr] of a list of column names, as the f-string prints it. *)
Fixpoint repr_items (l : list string) : string :=
  match l with
  | [] => ""
  | [c] => "'" +:+ c +:+ "'"
  | c :: l' => "'" +:+ c +:+ "', " +:+ repr_items l'
  end.

Definition repr_list (l : list string) : string := "[" +:+ repr_items l +:+ "]".

Record reports : Type := Reports {
  r_Working : list line;
  r_detailed_pivot_with_totals : frame key;
  r_brand_summary : list summary_row;
  r_inventory_pivot_with_totals : frame key;
  r_inventory_brand_summary : list summary_row }.

Inductive outcome : Type :=
| Stopped (message : string)   (* [st.error(message)] then [st.stop()] *)
| Raised                       (* an exception reached the [except] clause *)
| Done (r : reports).

(** The block under the "Process Data" button.  The two validations
    stop the run; after them a column that is read but absent
    ([KeyError]), a product master of fewer than seven columns
    ([ValueError] on the renaming of the five sliced columns) and a
    summary that cannot be built raise, and the [except] clause reports
    the exception instead of the tables. *)
Definition process (Working : table order) (FC_file : table fc_row)
    (PM : table pm_row) : outcome :=
  if decide (key_col_name ∉ columns Working)
  then Stopped ("Key column '" +:+ key_col_name +:+ "' missing in Working file.")
  else
    let missing := missing_columns (columns FC_file) in
    match missing with
    | _ :: _ => Stopped ("FC file missing columns: " +:+ repr_list missing)
    | [] =>
        if decide (("ship-state_original" ∉ columns Working)
                   /\ ("ship-state" ∉ columns Working)) then Raised
        else if decide (length (columns PM) < 7)%nat then Raised
        else if decide ("quantity-shipped" ∉ columns Working) then Raised
        else if decide ("sku" ∉ columns Working) then Raised
        else
          let W := enrich Working (rows FC_file) (rows PM) in
          match brand_summary W, inventory_brand_summary W with
          | Some state_summary, Some inventory_summary =>
              Done {| r_Working := W;
                      r_detailed_pivot_with_totals := detailed_pivot_with_totals W;
                      r_brand_summary := state_summary;
                      r_inventory_pivot_with_totals := inventory_pivot_with_totals W;
                      r_inventory_brand_summary := inventory_summary |}
          | _, _ => Raised
          end
    end.

(** ** Vocabulary of the properties *)

(** Texts that agree character by character up to [R]. *)
Inductive same_letters (R : ascii -> ascii -> Prop) : string -> string -> Prop :=
| same_empty : same_letters R "" ""
| same_next c d s t :
    R c d -> same_letters R s t -> same_letters R (String c s) (String d t).

(** Two characters that differ at most by letter case. *)
Definition same_case (c d : ascii) : Prop := Char.lower c = Char.lower d.

(** Two characters that differ at most by letter case, or are a space
    and a non-breaking space. *)
Definition same_case_or_space (c d : ascii) : Prop :=
  same_case c d
  \/ ((c = Char.space \/ c = Char.nbsp) /\ (d = Char.space \/ d = Char.nbsp)).

Fixpoint all_space (s : string) : bool :=
  match s with
  | EmptyString => true
  | String c s' => Char.isspace c && all_space s'
  end.

(** Texts that differ only by leading or trailing whitespace and, inside,
    character by character up to [R]. *)
Inductive variant (R : ascii -> ascii -> Prop) : string -> string -> Prop :=
| Variant l1 r1 l2 r2 a b :
    all_space l1 = true -> all_space r1 = true ->
    all_space l2 = true -> all_space r2 = true ->
    same_letters R a b ->
    variant R (l1 +:+ a +:+ r1) (l2 +:+ b +:+ r2).

(** [c in message] *)
Fixpoint occurs (c message : string) : bool :=
  String.prefix c message
  || match message with
     | EmptyString => false
     | String _ rest => occurs c rest
     end.

(** A row whose ["Grand Total"] is its ["RIS"] plus its ["Non RIS"]. *)
Definition row_consistent {I : Type} (cols : list string) (r : I * list Z) : Prop :=
  value0 cols r "Grand Total" = value0 cols r "RIS" + value0 cols r "Non RIS".

(** The sum of a column over some rows. *)
Definition column_total {I : Type} (cols : list string) (c : string)
    (rs : list (I * list Z)) : Z :=
  sumZ ((fun r => value0 cols r c) <$> rs).

(** The consistency of the totals added to a pivot. *)
Record totals_consistent (pivot : frame key) : Prop := {
  table_rows :
    exists sorted,
      rows (with_totals pivot) = sorted ++ [grand_total pivot]
      /\ sorted ≡ₚ rows pivot ++ rows (state_totals pivot) ++ rows (brand_totals pivot);
  every_row :
    forall r, r ∈ rows (with_totals pivot) -> row_consistent (columns pivot) r;
  brand_subtotal :
    forall r, r ∈ rows (brand_totals pivot) ->
      exists brand,
        r.1 = (brand, brand +:+ " Total", "")
        /\ value0 (columns pivot) r "Grand Total"
           = column_total (columns pivot) "Grand Total"
               (filter (fun l => l.1.1.1 = brand) (rows pivot));
  state_subtotal :
    forall r, r ∈ rows (state_totals pivot) ->
      exists brand state,
        r.1 = (brand, state +:+ " Total", "")
        /\ value0 (columns pivot) r "Grand Total"
           = column_total (columns pivot) "Grand Total"
               (filter (fun l => l.1.1 = (brand, state)) (rows pivot));
  final_total :
    value0 (columns pivot) (grand_total pivot) "Grand Total"
      = column_total (columns pivot) "Grand Total" (rows pivot)
    /\ value0 (columns pivot) (grand_total pivot) "Grand Total"
      = column_total (columns pivot) "Grand Total" (rows (brand_totals pivot)) }.

(** A percentage of a summary row: a fraction between 0 and 1 that is
    the quotient, and 0 when the total is 0. *)
Definition percentage_of (part total : Z) (p : float) : Prop :=
  exists q : Q,
    p = Finite q
    /\ (0 <= q <= 1)%Q
    /\ (total = 0 -> (q == 0)%Q)
    /\ (total <> 0 -> (q == inject_Z part / inject_Z total)%Q).

(** Whether a text starts with whitespace. *)
Definition head_space (s : string) : bool :=
  match s with
  | EmptyString => false
  | String c _ => Char.isspace c
  end.

(** Every entry of a canonical map sends a normalized text to a state
    with that normalized text. *)
Definition canonical (m : gmap string string) : Prop :=
  forall k v, m !! k = Some v -> normalize_text (Str v) = k.

(** The leaf rows of a pivot with its ["Grand Total"] column: the row of
    a group holds the quantities of its two statuses and their sum. *)
Definition leaf_rows {I : Type} `{EqDecision I} (index : line -> option I)
    (status_of : line -> status) (data : list line)
    (cols : list string) (F : I -> I * list Z) : Prop :=
  forall i,
    (F i).1 = i
    /\ value0 cols (F i) "Non RIS" = quantity index status_of data i Non_RIS
    /\ value0 cols (F i) "RIS" = quantity index status_of data i RIS
    /\ value0 cols (F i) "Grand Total"
       = quantity index status_of data i Non_RIS
         + quantity index status_of data i RIS.

(** The rows of a summary: one per brand, in the order of the brands,
    then the row of the margins. *)
Definition summaries (status_of : line -> status) (Working : list line)
    : list summary_row :=
  ((fun b => summary b (quantity brand_index status_of Working b Non_RIS)
                       (quantity brand_index status_of Working b RIS)
                       (brand_quantity Working b))
     <$> sorted_keys String.leb (omap brand_index Working))
  ++ [summary "Grand Total"
        (status_quantity status_of Working Non_RIS)
        (status_quantity status_of Working RIS)
        (sumZ (quantity_shipped <$> with_brand Working))].

(** ** The display of a detailed pivot *)

(** The index that [format_pivot_display] gives a row: [brand, fstate,
    sstate = idx], then the three branches on ["Total" in fstate] and
    [sstate == ""]. *)
Definition display_index (idx : key) : key :=
  let '(brand, fstate, sstate) := idx in
  if occurs "Total" fstate then ("  " +:+ brand, "", "")
  else if decide (sstate = "") then (brand, fstate, "")
  else (brand, fstate, sstate).

(** [format_pivot_display(df)]: a copy of the frame under the display
    index. *)
Definition format_pivot_display (df : frame key) : frame key :=
  Table (columns df) ((fun r => (display_index r.1, r.2)) <$> rows df).

(** ** Vocabulary of the further properties *)

(** The word characters of a text, lower-cased, in their order. *)
Definition word_letters (s : string) : string :=
  PyStr.filter Char.isword (PyStr.lower s).

(** A character that is not whitespace. *)
Definition not_space (c : ascii) : bool := negb (Char.isspace c).

(** Whether every character of a text satisfies [p]. *)
Fixpoint all_chars (p : ascii -> bool) (s : string) : bool :=
  match s with
  | EmptyString => true
  | String c s' => p c && all_chars p s'
  end.

(** * Properties *)

(** ** Scenarios *)

Example normalize_text_tamil :
  normalize_text (Str "Tamil Nadu") = "tamilnadu"
  /\ normalize_text (Str "tamil-nadu") = "tamilnadu"
  /\ normalize_text (Str "  TAMIL   NADU. ") = "tamilnadu"
  /\ normalize_text NaN = "".
Proof. vm_compute. auto. Qed.

Example scenario_local_mapping :
  ris_status_from_ixd (Str "DED3") (Str "DEL4") = RIS
  /\ ris_status_from_ixd (Str "DED3") (Str "BOM5") = Non_RIS
  /\ ris_status_from_ixd (Str "XYZ9") (Str "DEL4") = Non_RIS
  /\ ris_status_from_ixd (Str "DED3") (Str " del4 ") = RIS.
Proof. vm_compute. auto. Qed.

(** ** Text *)

Section Text.
Import PyStr.

Lemma isspace_lower c : Char.isspace (Char.lower c) = Char.isspace c.
Proof. by destruct c as [[] [] [] [] [] [] [] []]. Qed.

Lemma upper_lower c : Char.upper (Char.lower c) = Char.upper c.
Proof. by destruct c as [[] [] [] [] [] [] [] []]. Qed.

Lemma same_case_isspace c d : same_case c d -> Char.isspace c = Char.isspace d.
Proof.
  unfold same_case. intros H.
  by rewrite <- (isspace_lower c), H, isspace_lower.
Qed.

Lemma same_case_upper c d : same_case c d -> Char.upper c = Char.upper d.
Proof.
  unfold same_case. intros H.
  by rewrite <- (upper_lower c), H, upper_lower.
Qed.

Lemma lstrip_all_space l : all_space l = true -> lstrip l = "".
Proof.
  induction l as [|c l IH]; simpl; [done|].
  intros [Hc Hl]%andb_true_iff. rewrite Hc. auto.
Qed.

Lemma rstrip_all_space r : all_space r = true -> rstrip r = "".
Proof.
  induction r as [|c r IH]; simpl; [done|].
  intros [Hc Hr]%andb_true_iff. by rewrite (IH Hr), Hc.
Qed.

Lemma lstrip_padding l s : all_space l = true -> lstrip (l +:+ s) = lstrip s.
Proof.
  induction l as [|c l IH]; simpl; [done|].
  intros [Hc Hl]%andb_true_iff. rewrite Hc. auto.
Qed.

Lemma rstrip_padding s r : all_space r = true -> rstrip (s +:+ r) = rstrip s.
Proof.
  intros Hr. induction s as [|c s IH]; simpl.
  - by apply rstrip_all_space.
  - by rewrite IH.
Qed.

Lemma strip_right_padding s r : all_space r = true -> strip (s +:+ r) = strip s.
Proof.
  intros Hr. unfold strip. induction s as [|c s IH].
  - change ("" +:+ r) with r. by rewrite (lstrip_all_space r Hr).
  - change (String c s +:+ r) with (String c (s +:+ r)).
    cbn [lstrip]. destruct (Char.isspace c); [done|].
    change (String c (s +:+ r)) with (String c s +:+ r).
    by apply rstrip_padding.
Qed.

Lemma strip_padding l s r :
  all_space l = true -> all_space r = true -> strip (l +:+ s +:+ r) = strip s.
Proof.
  intros Hl Hr. rewrite <- (strip_right_padding s r Hr).
  unfold strip. by rewrite lstrip_padding.
Qed.

(** *** [strip] is idempotent *)

Lemma head_space_lstrip s : head_space (lstrip s) = false.
Proof.
  induction s as [|c s IH]; simpl; [done|].
  destruct (Char.isspace c) eqn:Hc; [done|]. simpl. by rewrite Hc.
Qed.

Lemma lstrip_no_head_space s : head_space s = false -> lstrip s = s.
Proof. destruct s as [|c s]; simpl; [done|]. by intros ->. Qed.

Lemma head_space_rstrip s : head_space s = false -> head_space (rstrip s) = false.
Proof.
  destruct s as [|c s]; simpl; [done|]. intros Hc.
  destruct (rstrip s); rewrite ?Hc; simpl; by rewrite ?Hc.
Qed.

Lemma rstrip_idemp s : rstrip (rstrip s) = rstrip s.
Proof.
  induction s as [|c s IH]; [done|].
  cbn [rstrip]. destruct (rstrip s) as [|c' s'] eqn:E.
  - destruct (Char.isspace c) eqn:Hc; cbn [rstrip]; by rewrite ?Hc.
  - cbn [rstrip] in *. by rewrite IH.
Qed.

Lemma strip_idemp s : strip (strip s) = strip s.
Proof.
  unfold strip.
  rewrite (lstrip_no_head_space (rstrip (lstrip s))).
  - apply rstrip_idemp.
  - apply head_space_rstrip, head_space_lstrip.
Qed.

(** *** Variants by case and padding *)

Lemma same_letters_lstrip a b :
  same_letters same_case a b -> same_letters same_case (lstrip a) (lstrip b).
Proof.
  induction 1 as [|c d s t Hcd Hst IH]; simpl; [constructor|].
  rewrite (same_case_isspace c d Hcd).
  destruct (Char.isspace d); [done|]. by constructor.
Qed.

Lemma same_letters_rstrip a b :
  same_letters same_case a b -> same_letters same_case (rstrip a) (rstrip b).
Proof.
  induction 1 as [|c d s t Hcd Hst IH]; simpl; [constructor|].
  rewrite (same_case_isspace c d Hcd).
  inversion IH as [Hs Ht|c' d' s' t' Hcd' Hst' Hs Ht].
  - destruct (Char.isspace d); repeat constructor; done.
  - repeat constructor; done.
Qed.

Lemma same_letters_upper a b : same_letters same_case a b -> upper a = upper b.
Proof.
  induction 1 as [|c d s t Hcd Hst IH]; simpl; [done|].
  by rewrite (same_case_upper c d Hcd), IH.
Qed.

Lemma variant_upper_strip a b :
  variant same_case a b -> upper (strip a) = upper (strip b).
Proof.
  intros [l1 r1 l2 r2 a' b' Hl1 Hr1 Hl2 Hr2 Hab].
  rewrite !strip_padding by done.
  by apply same_letters_upper, same_letters_rstrip, same_letters_lstrip.
Qed.
End Text.

(** ** The join key *)

(** C7, as amended: texts that differ only by letter case or by leading
    or trailing whitespace (non-breaking spaces included) have the same
    join key under [normalize]. *)
Theorem C7_normalize_case_and_padding (a b : string) :
  variant same_case a b -> normalize [Str a] = normalize [Str b].
Proof.
  intros H. unfold normalize. cbn [fmap list_fmap]. unfold normalize_value.
  cbn [py_str]. by rewrite (variant_upper_strip a b H).
Qed.

Lemma C7_normalize_case_and_padding_witness :
  variant same_case " ded3 " "DED3"
  /\ normalize [Str " ded3 "] = normalize [Str "DED3"].
Proof.
  assert (H : variant same_case " ded3 " "DED3").
  { apply (Variant same_case " " " " "" "" "ded3" "DED3"); try reflexivity.
    repeat constructor. }
  split; [exact H | exact (C7_normalize_case_and_padding " ded3 " "DED3" H)].
Defined.

(** C7, as stated, fails: a non-breaking space inside a text is not
    the same key as a regular space. *)
Lemma C7_counterexample :
  variant same_case_or_space
    (String "D" (String "E" (String Char.space "D3")))
    (String "D" (String "E" (String Char.nbsp "D3")))
  /\ normalize [Str (String "D" (String "E" (String Char.space "D3")))]
     <> normalize [Str (String "D" (String "E" (String Char.nbsp "D3")))].
Proof.
  split.
  - apply (Variant same_case_or_space "" "" "" ""
             (String "D" (String "E" (String Char.space "D3")))
             (String "D" (String "E" (String Char.nbsp "D3")))); try reflexivity.
    repeat (constructor; [by left|]).
    constructor; [right; auto|].
    repeat (constructor; [by left|]). constructor.
  - by vm_compute.
Qed.

(** ** The local mapping rule *)

(** C4, as amended: the receive centre is looked up in [LOCAL_MAP] as it
    is, and only the fulfillment-center code is compared up to letter
    case and surrounding whitespace: a line is RIS exactly when its
    receive centre is a key of the mapping and its code, or any variant
    of it by case and padding, upper-cased and stripped, is in the list
    of that key. *)
Theorem C4_local_mapping_membership (rc : cell) (a b : string) :
  variant same_case a b ->
  ris_status_from_ixd rc (Str a) = RIS
  <-> exists k local,
        rc = Str k /\ LOCAL_MAP !! k = Some local
        /\ PyStr.upper (PyStr.strip b) ∈ local.
Proof.
  intros H. unfold ris_status_from_ixd. cbn [py_str].
  rewrite (variant_upper_strip a b H).
  destruct rc as [|k].
  { split; [done | by intros (? & ? & ? & _)]. }
  destruct (LOCAL_MAP !! k) as [local|] eqn:E.
  - case_decide as Hin.
    + split; [by exists k, local | done].
    + split; [done|]. intros (k' & local' & [= <-] & Hk & Hin').
      rewrite E in Hk. by injection Hk as <-.
  - split; [done|]. intros (k' & local' & [= <-] & Hk & _). congruence.
Qed.

Lemma C4_local_mapping_membership_witness :
  variant same_case " del4 " "DEL4"
  /\ (ris_status_from_ixd (Str "DED3") (Str " del4 ") = RIS
      <-> exists k local,
            Str "DED3" = Str k /\ LOCAL_MAP !! k = Some local
            /\ PyStr.upper (PyStr.strip "DEL4") ∈ local).
Proof.
  assert (H : variant same_case " del4 " "DEL4").
  { apply (Variant same_case " " " " "" "" "del4" "DEL4"); try reflexivity.
    repeat constructor. }
  split; [exact H|].
  exact (C4_local_mapping_membership (Str "DED3") " del4 " "DEL4" H).
Defined.

(** C4, as stated, fails: a receive centre that differs from a key by
    letter case is not classified as the key is. *)
Lemma C4_counterexample :
  variant same_case "ded3" "DED3"
  /\ ris_status_from_ixd (Str "DED3") (Str "DEL4") = RIS
  /\ ris_status_from_ixd (Str "ded3") (Str "DEL4") = Non_RIS.
Proof.
  split.
  - apply (Variant same_case "" "" "" "" "ded3" "DED3"); try reflexivity.
    repeat constructor.
  - by vm_compute.
Qed.

(** ** The state-match rule *)

Lemma ris_status_RIS x y : ris_status x y = RIS <-> compared x = compared y.
Proof. unfold ris_status. case_decide; naive_solver. Qed.

(** Without a fulfillment state a line is RIS exactly when its ship
    state reads [nan]. *)
Lemma ris_status_unmatched x : ris_status x NaN = RIS <-> compared x = "nan".
Proof. by rewrite ris_status_RIS. Qed.

(** C1: the rule on a line that has no FC match and no ship state.  The
    claim asks for Non RIS; both sides of the comparison are the text of
    a missing value and the line is RIS. *)
Theorem C1_no_match_and_no_ship_state :
  let Working :=
    Table ["fulfillment-center-id"; "ship-state"; "quantity-shipped"; "sku"]
          [Order (Str "BLR7") NaN NaN (Str "S1") 1 NaN] in
  let FC_table := [FcRow (Str "DED3") (Str "Delhi") (Str "North")] in
  (fun l => (ship_state_original l, fulfillment_state l, RIS_Status l))
    <$> enrich Working FC_table []
  = [(NaN, NaN, RIS)].
Proof. by vm_compute. Qed.

(** C2, as amended: the order of fulfillment center [ded3] gets the
    state [Delhi] of the FC row [DED3], and the comparison with it is
    case-sensitive: the ship state [" Delhi "] is RIS, [" delhi "] and
    ["Haryana"] are Non RIS. *)
Theorem C2_state_match_scenario (ship : string) (cl : cell) (q : Z) :
  let Working :=
    Table ["fulfillment-center-id"; "ship-state"; "quantity-shipped"; "sku"]
          [Order (Str "ded3") (Str ship) NaN NaN q NaN] in
  (fun l => (fulfillment_state l, RIS_Status l))
    <$> enrich Working [FcRow (Str "DED3") (Str "Delhi") cl] []
  = [(Str "Delhi", ris_status (Str ship) (Str "Delhi"))]
  /\ ris_status (Str " Delhi ") (Str "Delhi") = RIS
  /\ ris_status (Str " delhi ") (Str "Delhi") = Non_RIS
  /\ ris_status (Str "Haryana") (Str "Delhi") = Non_RIS.
Proof. split; [reflexivity | by vm_compute]. Qed.

(** C2, as stated, fails: the ship state [" delhi "] is not RIS. *)
Lemma C2_counterexample :
  let Working :=
    Table ["fulfillment-center-id"; "ship-state"; "quantity-shipped"; "sku"]
          [Order (Str "ded3") (Str " delhi ") NaN NaN 1 NaN] in
  (fun l => (ship_state_original l, fulfillment_state l, RIS_Status l))
    <$> enrich Working [FcRow (Str "DED3") (Str "Delhi") (Str "North")] []
  = [(Str " delhi ", Str "Delhi", Non_RIS)].
Proof. by vm_compute. Qed.

(** ** The correction of ship states *)


Lemma canon_entry_canonical m s :
  PyStr.strip s = s -> canonical m -> canonical (canon_entry m s).
Proof.
  intros Hs Hm k v. unfold canon_entry. case_decide as Hk; [apply Hm|].
  rewrite lookup_insert. case_decide as Hkey; [|apply Hm].
  intros [= <-]. by rewrite Hs.
Qed.

Lemma foldl_canon_entry_canonical l m :
  Forall (fun s => PyStr.strip s = s) l -> canonical m ->
  canonical (foldl canon_entry m l).
Proof.
  intros Hl. revert m.
  induction Hl as [|s l Hs Hl IH]; intros m Hm; cbn [foldl]; [done|].
  by apply IH, canon_entry_canonical.
Qed.

Lemma fc_states_stripped State : Forall (fun s => PyStr.strip s = s) (fc_states State).
Proof.
  unfold fc_states. apply Forall_fmap, Forall_forall.
  intros c _. apply strip_idemp.
Qed.

Lemma canon_map_canonical State : canonical (canon_map State).
Proof.
  apply foldl_canon_entry_canonical; [apply fc_states_stripped|].
  intros k v. by rewrite lookup_empty.
Qed.

(** C10: the correction keeps the normalized text of the ship state. *)
Theorem C10_safe_correct_keeps_normalized_text (State : list cell) (raw : cell) :
  normalize_text (safe_correct raw (canon_map State)) = normalize_text raw.
Proof.
  unfold safe_correct.
  destruct (canon_map State !! normalize_text raw) as [v|] eqn:E; [|done].
  by apply canon_map_canonical in E.
Qed.

(** C8: correcting a corrected ship state changes nothing. *)
Theorem C8_safe_correct_idempotent (State : list cell) (x : cell) :
  safe_correct (safe_correct x (canon_map State)) (canon_map State)
  = safe_correct x (canon_map State).
Proof.
  unfold safe_correct at 2 3.
  destruct (canon_map State !! normalize_text x) as [v|] eqn:E.
  - unfold safe_correct.
    by rewrite (canon_map_canonical State _ _ E), E.
  - unfold safe_correct. by rewrite E.
Qed.

Example safe_correct_delhi :
  safe_correct (Str " delhi ") (canon_map [Str "Delhi "; NaN; Str "Tamil Nadu"])
  = Str "Delhi"
  /\ safe_correct (Str "TAMIL-NADU") (canon_map [Str "Delhi "; NaN; Str "Tamil Nadu"])
     = Str "Tamil Nadu"
  /\ safe_correct (Str "Goa") (canon_map [Str "Delhi "; NaN; Str "Tamil Nadu"])
     = Str "Goa".
Proof. by vm_compute. Qed.

(** ** The validation of the FC table *)

Lemma missing_columns_spec FC_columns c :
  c ∈ missing_columns FC_columns <-> (c ∉ FC_columns) /\ (c ∈ required_cols).
Proof. unfold missing_columns. by rewrite list_elem_of_filter. Qed.

(** C9, as amended: when the order table has its key column and the FC
    table lacks a required column, the run stops before any table is
    built, with the message that lists the missing columns of the FC
    table, the lacking column among them. *)
Theorem C9_missing_FC_columns_stop_the_run
    (Working : table order) (FC_file : table fc_row) (PM : table pm_row)
    (c : string) :
  key_col_name ∈ columns Working ->
  c ∈ required_cols ->
  c ∉ columns FC_file ->
  c ∈ missing_columns (columns FC_file)
  /\ process Working FC_file PM
     = Stopped ("FC file missing columns: "
                +:+ repr_list (missing_columns (columns FC_file)))
  /\ occurs c ("FC file missing columns: "
               +:+ repr_list (missing_columns (columns FC_file))) = true.
Proof.
  intros Hkey Hreq Hc.
  assert (Hmiss : c ∈ missing_columns (columns FC_file))
    by by apply missing_columns_spec.
  split; [done|]. split.
  - unfold process. case_decide as Hno; [done|].
    destruct (missing_columns (columns FC_file)); [|done].
    by apply not_elem_of_nil in Hmiss.
  - clear Hmiss. unfold missing_columns, required_cols in *.
    rewrite !filter_cons, filter_nil.
    repeat case_decide;
      repeat (apply elem_of_cons in Hreq as [->|Hreq]; [done || by vm_compute|]);
      by apply not_elem_of_nil in Hreq.
Qed.

Lemma C9_missing_FC_columns_stop_the_run_witness :
  process (Table ["fulfillment-center-id"; "ship-state"] [])
          (Table ["FC"; "State"] []) (Table [] [])
  = Stopped "FC file missing columns: ['Cluster']".
Proof.
  refine (proj1 (proj2 (C9_missing_FC_columns_stop_the_run
           (Table ["fulfillment-center-id"; "ship-state"] [])
           (Table ["FC"; "State"] []) (Table [] []) "Cluster" _ _ _))).
  - compute_done.
  - compute_done.
  - compute_done.
Defined.

(** C9, as stated, fails: when the order table lacks its key column too,
    the run stops on that column and the message does not name the
    missing column of the FC table. *)
Lemma C9_counterexample :
  missing_columns ["FC"; "State"] = ["Cluster"]
  /\ process (Table ["ship-state"] []) (Table ["FC"; "State"] []) (Table [] [])
     = Stopped "Key column 'fulfillment-center-id' missing in Working file."
  /\ occurs "Cluster" "Key column 'fulfillment-center-id' missing in Working file."
     = false.
Proof. by vm_compute. Qed.

(** ** Sums *)

Ltac unfold_sums := unfold sumZ in *; cbn [foldr fmap list_fmap app] in *.

Section Sums.
Context {A : Type}.
Implicit Types (f g : A -> Z) (l : list A).

Lemma sumZ_fmap_add f g l :
  sumZ ((fun x => f x + g x) <$> l) = sumZ (f <$> l) + sumZ (g <$> l).
Proof. induction l as [|x l IH]; unfold_sums; lia. Qed.

Lemma sumZ_fmap_ext f g l :
  (forall x, x ∈ l -> f x = g x) -> sumZ (f <$> l) = sumZ (g <$> l).
Proof.
  intros H. f_equal. apply Forall_fmap_ext, Forall_forall. exact H.
Qed.

Lemma sumZ_fmap_zero l : sumZ ((fun _ : A => 0) <$> l) = 0.
Proof. induction l as [|x l IH]; unfold_sums; lia. Qed.

Lemma sumZ_fmap_nonneg f l :
  (forall x, x ∈ l -> 0 <= f x) -> 0 <= sumZ (f <$> l).
Proof.
  induction l as [|x l IH]; intros H; [done|].
  assert (0 <= f x) by (apply H; left).
  assert (0 <= sumZ (f <$> l)) by (apply IH; intros y Hy; apply H; by right).
  unfold_sums. lia.
Qed.

Lemma sumZ_filter_cons (P : A -> Prop) `{!forall x, Decision (P x)} f x l :
  sumZ (f <$> filter P (x :: l))
  = (if decide (P x) then f x else 0) + sumZ (f <$> filter P l).
Proof. rewrite filter_cons. by case_decide. Qed.

Lemma filter_all (P : A -> Prop) `{!forall x, Decision (P x)} l :
  (forall x, x ∈ l -> P x) -> filter P l = l.
Proof.
  induction l as [|x l IH]; intros Hall; [done|].
  rewrite filter_cons_True by (apply Hall; left).
  f_equal. apply IH. intros y Hy. apply Hall. by right.
Qed.

Lemma filter_none (P : A -> Prop) `{!forall x, Decision (P x)} l :
  (forall x, x ∈ l -> ~ P x) -> filter P l = [].
Proof.
  induction l as [|x l IH]; intros Hnone; [done|].
  rewrite filter_cons_False by (apply Hnone; left).
  apply IH. intros y Hy. apply Hnone. by right.
Qed.
End Sums.

Section Groups.
Context {A K : Type} `{EqDecision K}.

(** Among distinct keys exactly one is the key of an element. *)
Lemma sumZ_one_key (ks : list K) (k : K) (v : Z) :
  NoDup ks ->
  sumZ ((fun k' => if decide (Some k = Some k') then v else 0) <$> ks)
  = if decide (k ∈ ks) then v else 0.
Proof.
  induction 1 as [|k' ks Hk' Hks IH]; [done|].
  change (sumZ (?f <$> k' :: ks)) with (f k' + sumZ (f <$> ks)). rewrite IH.
  destruct (decide (k = k')) as [->|Hne].
  - rewrite decide_True by done. rewrite decide_False by done.
    rewrite decide_True by left. lia.
  - rewrite decide_False by congruence.
    destruct (decide (k ∈ ks)) as [Hin|Hin].
    + rewrite decide_True by (by right). lia.
    + rewrite decide_False; [lia|]. by intros [?|?]%elem_of_cons.
Qed.

(** The sums of the groups add up to the sum of the grouped elements. *)
Lemma sum_by_group (kf : A -> option K) (g : A -> Z) (ks : list K) (l : list A) :
  NoDup ks ->
  (forall a k, a ∈ l -> kf a = Some k -> k ∈ ks) ->
  sumZ ((fun k => sumZ (g <$> filter (fun a => kf a = Some k) l)) <$> ks)
  = sumZ (g <$> filter (fun a => is_Some (kf a)) l).
Proof.
  intros Hks. induction l as [|a l IH]; intros Hin.
  - apply (sumZ_fmap_zero ks).
  - rewrite (sumZ_fmap_ext _
       (fun k => (if decide (Some k = kf a) then g a else 0)
                 + sumZ (g <$> filter (fun a' => kf a' = Some k) l))).
    2:{ intros k _. rewrite sumZ_filter_cons.
        destruct (decide (kf a = Some k)) as [->|Hne].
        - by rewrite decide_True.
        - by rewrite decide_False. }
    rewrite sumZ_fmap_add, IH by (intros a' k Ha'; apply Hin; by right).
    rewrite sumZ_filter_cons. f_equal.
    destruct (kf a) as [k0|] eqn:Hk0.
    + rewrite decide_True by done.
      rewrite (sumZ_fmap_ext _
         (fun k => if decide (Some k0 = Some k) then g a else 0)).
      2:{ intros k _. destruct (decide (k = k0)) as [->|Hne].
          - by rewrite !decide_True.
          - by rewrite !decide_False by congruence. }
      rewrite sumZ_one_key by done.
      rewrite decide_True; [done|]. apply (Hin a); [left|done].
    + rewrite decide_False by (by intros []).
      rewrite (sumZ_fmap_ext _ (fun _ => 0)); [apply sumZ_fmap_zero|].
      intros k _. by rewrite decide_False.
Qed.

(** The same for a key that every element has. *)
Lemma sum_by_key (key : A -> K) (g : A -> Z) (ks : list K) (l : list A) :
  NoDup ks ->
  (forall a, a ∈ l -> key a ∈ ks) ->
  sumZ ((fun k => sumZ (g <$> filter (fun a => key a = k) l)) <$> ks)
  = sumZ (g <$> l).
Proof.
  intros Hks Hin.
  transitivity (sumZ (g <$> filter (fun a => is_Some (Some (key a))) l)).
  2:{ do 2 f_equal. by apply filter_all. }
  rewrite <- (sum_by_group (fun a => Some (key a)) g ks l Hks).
  - apply sumZ_fmap_ext. intros k _. do 2 f_equal.
    apply list_filter_iff. intros a. split; congruence.
  - by intros a k Ha [= <-]; apply Hin.
Qed.
End Groups.

(** ** Frames *)

Lemma index_of_lt c cols j : index_of c cols = Some j -> (j < length cols)%nat.
Proof.
  revert j. induction cols as [|c' cols IH]; intros j; cbn [index_of]; [done|].
  destruct (String.eqb c' c).
  - intros [= <-]. cbn. lia.
  - destruct (index_of c cols) as [j'|]; [|done].
    intros [= <-]. specialize (IH j' eq_refl). cbn. lia.
Qed.

Lemma sorted_keys_NoDup {K : Type} `{EqDecision K} (le : K -> K -> bool) (ks : list K) :
  NoDup (sorted_keys le ks).
Proof.
  unfold sorted_keys. rewrite merge_sort_Permutation. apply NoDup_remove_dups.
Qed.

Lemma elem_of_sorted_keys {K : Type} `{EqDecision K} (le : K -> K -> bool)
    (ks : list K) (k : K) :
  k ∈ sorted_keys le ks <-> k ∈ ks.
Proof.
  unfold sorted_keys. by rewrite merge_sort_Permutation, elem_of_remove_dups.
Qed.

Section ColumnSums.
Context {I : Type}.
Implicit Types (cols : list string) (rs : list (I * list Z)).

(** A row of column sums holds, under every label, the total of the
    column. *)
Lemma value0_col_sums {J : Type} cols rs (k : J) c :
  value0 cols (k, col_sums (length cols) rs) c = column_total cols c rs.
Proof.
  unfold column_total, value0, value. cbn [snd].
  destruct (index_of c cols) as [j|] eqn:E; cbn [mbind option_bind].
  - unfold col_sums. rewrite list_lookup_fmap.
    rewrite (lookup_seq_lt _ _ _ (index_of_lt _ _ _ E)). cbn [fmap option_fmap option_map default].
    apply sumZ_fmap_ext. intros r _. by cbn.
  - cbn [default]. symmetry. apply sumZ_fmap_zero.
Qed.

Lemma row_consistent_col_sums {J : Type} cols rs (k : J) :
  (forall r, r ∈ rs -> row_consistent cols r) ->
  row_consistent cols (k, col_sums (length cols) rs).
Proof.
  intros H. unfold row_consistent. rewrite !value0_col_sums.
  unfold column_total. rewrite <- sumZ_fmap_add.
  apply sumZ_fmap_ext. exact H.
Qed.
End ColumnSums.

(** ** The totals of a detailed pivot *)

Section TotalsConsistent.
Variable pivot : frame key.
Hypothesis leaves : forall r, r ∈ rows pivot -> row_consistent (columns pivot) r.

Lemma brand_totals_rows r :
  r ∈ rows (brand_totals pivot) ->
  exists brand,
    brand ∈ (fun l : key * list Z => l.1.1.1) <$> rows pivot
    /\ r = ((brand, brand +:+ " Total", ""),
            col_sums (length (columns pivot))
              (filter (fun l => l.1.1.1 = brand) (rows pivot))).
Proof.
  unfold brand_totals, groupby_sum. cbn [rows columns].
  intros (r' & -> & (brand & -> & Hb%elem_of_sorted_keys)%list_elem_of_fmap)%list_elem_of_fmap.
  by exists brand.
Qed.

Lemma state_totals_rows r :
  r ∈ rows (state_totals pivot) ->
  exists brand state,
    r = ((brand, state +:+ " Total", ""),
         col_sums (length (columns pivot))
           (filter (fun l => l.1.1 = (brand, state)) (rows pivot))).
Proof.
  unfold state_totals, groupby_sum. cbn [rows columns].
  intros (r' & -> & ([brand state] & -> & _)%list_elem_of_fmap)%list_elem_of_fmap.
  by exists brand, state.
Qed.

Lemma brand_totals_add_up :
  column_total (columns pivot) "Grand Total" (rows (brand_totals pivot))
  = column_total (columns pivot) "Grand Total" (rows pivot).
Proof.
  unfold column_total at 1, brand_totals, groupby_sum. cbn [rows columns].
  rewrite <- !list_fmap_compose.
  rewrite (sumZ_fmap_ext _
    (fun k => sumZ ((fun r => value0 (columns pivot) r "Grand Total")
                      <$> filter (fun r : key * list Z => r.1.1.1 = k) (rows pivot)))).
  2:{ intros k _. cbn [compose fst snd]. apply value0_col_sums. }
  apply sum_by_key; [apply sorted_keys_NoDup|].
  intros r Hr. apply elem_of_sorted_keys.
  by apply (list_elem_of_fmap_2 (fun r : key * list Z => r.1.1.1)).
Qed.

Lemma with_totals_consistent : totals_consistent pivot.
Proof.
  split.
  - eexists. split; [reflexivity|].
    unfold sort_index. cbn [rows]. apply merge_sort_Permutation.
  - intros r. unfold with_totals, sort_index. cbn [rows].
    rewrite elem_of_app, merge_sort_Permutation, !elem_of_app, list_elem_of_singleton.
    intros [[Hr|[Hr|Hr]]| ->].
    + by apply leaves.
    + apply state_totals_rows in Hr as (b & s & ->).
      apply row_consistent_col_sums.
      intros r [_ Hr]%list_elem_of_filter. by apply leaves.
    + apply brand_totals_rows in Hr as (b & _ & ->).
      apply row_consistent_col_sums.
      intros r [_ Hr]%list_elem_of_filter. by apply leaves.
    + by apply row_consistent_col_sums.
  - intros r (b & _ & ->)%brand_totals_rows. exists b.
    split; [done|]. apply value0_col_sums.
  - intros r (b & s & ->)%state_totals_rows. exists b, s.
    split; [done|]. apply value0_col_sums.
  - split; [apply value0_col_sums|].
    rewrite brand_totals_add_up. apply value0_col_sums.
Qed.
End TotalsConsistent.

(** ** Pivot tables *)

Section PivotFacts.
Context {I : Type} `{EqDecision I}.
Variable le : I -> I -> bool.
Variable index : line -> option I.
Variable status_of : line -> status.
Variable data : list line.

Lemma statuses_cases :
  statuses index status_of data = []
  \/ statuses index status_of data = [Non_RIS]
  \/ statuses index status_of data = [RIS]
  \/ statuses index status_of data = [Non_RIS; RIS].
Proof.
  unfold statuses. rewrite !filter_cons, filter_nil.
  repeat case_decide; auto.
Qed.

Lemma elem_of_statuses c :
  c ∈ statuses index status_of data
  <-> exists l, l ∈ data /\ is_Some (index l) /\ status_of l = c.
Proof.
  unfold statuses. rewrite list_elem_of_filter, Exists_exists.
  split; [intros [H' _]; exact H'|]. intros H'. split; [exact H'|].
  destruct c; [right; left | left].
Qed.

(** A status that labels no column has no quantity in any group. *)
Lemma quantity_absent i c :
  c ∉ statuses index status_of data -> quantity index status_of data i c = 0.
Proof.
  intros Hc. unfold quantity. rewrite filter_none; [done|].
  intros l Hl [Hi Hs]. apply Hc, elem_of_statuses.
  exists l. by rewrite Hi.
Qed.

(** The quantity of a group is that of its two statuses. *)
Lemma group_quantity i :
  quantity index status_of data i Non_RIS + quantity index status_of data i RIS
  = sumZ (quantity_shipped <$> filter (fun l => index l = Some i) data).
Proof.
  unfold quantity. induction data as [|l ls IH]; [done|].
  rewrite !sumZ_filter_cons, <- IH.
  destruct (decide (index l = Some i)) as [Hi|Hi], (status_of l) eqn:Hs;
    repeat case_decide; try lia; intuition congruence.
Qed.

Lemma elem_of_pivot_keys i :
  i ∈ sorted_keys le (omap index data) <-> exists l, l ∈ data /\ index l = Some i.
Proof. by rewrite elem_of_sorted_keys, list_elem_of_omap. Qed.

(** The quantities of the groups add up to that of the indexed lines. *)
Lemma groups_quantity :
  sumZ ((fun i => sumZ (quantity_shipped <$> filter (fun l => index l = Some i) data))
          <$> sorted_keys le (omap index data))
  = sumZ (quantity_shipped <$> filter (fun l => is_Some (index l)) data).
Proof.
  apply sum_by_group; [apply sorted_keys_NoDup|].
  intros l i Hl Hi. apply elem_of_pivot_keys. by exists l.
Qed.


Ltac absent_statuses E :=
  repeat match goal with
         | |- context [quantity index status_of data ?i ?c] =>
             rewrite (quantity_absent i c) by (rewrite E; compute_done)
         end.

Ltac leaf_shape E :=
  rewrite E; eexists; split;
  [ cbn -[Z.add]; rewrite <- ?list_fmap_compose; reflexivity
  | intros i; unfold value0, value; cbn -[Z.add];
    try absent_statuses E;
    repeat match goal with
           | |- context [quantity index status_of data ?i ?c] =>
               generalize (quantity index status_of data i c); intro
           end;
    repeat split; lia ].

Lemma pivot_with_grand_total_shape :
  let t := add_grand_total (pivot_table le index status_of data) in
  exists F,
    rows t = F <$> sorted_keys le (omap index data) /\ leaf_rows index status_of data (columns t) F.
Proof.
  cbn zeta. unfold leaf_rows, add_grand_total, pivot_table.
  destruct statuses_cases as [E|[E|[E|E]]].
  - leaf_shape E.
  - leaf_shape E.
  - leaf_shape E.
  - leaf_shape E.
Qed.

Lemma inventory_columns_shape :
  let t := pivot_table le index status_of data in
  let t := ensure_column "Non RIS" (ensure_column "RIS" t) in
  let t := add_grand_total (reorder ["Non RIS"; "RIS"] t) in
  exists F,
    rows t = F <$> sorted_keys le (omap index data) /\ leaf_rows index status_of data (columns t) F.
Proof.
  cbn zeta. unfold leaf_rows, add_grand_total, pivot_table.
  destruct statuses_cases as [E|[E|[E|E]]].
  - leaf_shape E.
  - leaf_shape E.
  - leaf_shape E.
  - leaf_shape E.
Qed.

(** The leaves are consistent rows and their total is the quantity of
    the lines that have an index. *)
Lemma leaf_rows_consistent cols F r :
  leaf_rows index status_of data cols F -> r ∈ F <$> sorted_keys le (omap index data) ->
  row_consistent cols r.
Proof.
  intros HF (i & -> & _)%list_elem_of_fmap.
  destruct (HF i) as (_ & HN & HR & HT).
  unfold row_consistent. lia.
Qed.

Lemma leaf_rows_total cols F :
  leaf_rows index status_of data cols F ->
  column_total cols "Grand Total" (F <$> sorted_keys le (omap index data))
  = sumZ (quantity_shipped <$> filter (fun l => is_Some (index l)) data).
Proof.
  intros HF. unfold column_total. rewrite <- list_fmap_compose.
  rewrite <- groups_quantity. apply sumZ_fmap_ext. intros i _.
  destruct (HF i) as (_ & _ & _ & HT).
  cbn [compose]. by rewrite HT, group_quantity.
Qed.
End PivotFacts.

(** C5: in both detailed pivots every row has its ["Grand Total"] equal
    to its ["RIS"] plus its ["Non RIS"], a brand subtotal is the sum of
    the leaves of its brand, a state subtotal the sum of the leaves of
    its brand and fulfillment state, and the last row sums all leaves,
    which is also the sum of the brand subtotals. *)
Theorem C5_totals_consistent (Working : list line) :
  totals_consistent (detailed_pivot Working)
  /\ totals_consistent (inventory_pivot Working).
Proof.
  split; apply with_totals_consistent; intros r Hr.
  - destruct (pivot_with_grand_total_shape key_leb detail_index RIS_Status Working)
      as (F & HF & Hleaf).
    unfold detailed_pivot in *. rewrite HF in Hr.
    by apply (leaf_rows_consistent key_leb detail_index RIS_Status Working _ F).
  - destruct (inventory_columns_shape key_leb detail_index RIS_by_Table Working)
      as (F & HF & Hleaf).
    unfold inventory_pivot in *. rewrite HF in Hr.
    by apply (leaf_rows_consistent key_leb detail_index RIS_by_Table Working _ F).
Qed.

(** ** The brand-level summaries *)

Section MarginFacts.
Variable status_of : line -> status.
Variable Working : list line.

Lemma brand_quantity_statuses b :
  quantity brand_index status_of Working b Non_RIS
  + quantity brand_index status_of Working b RIS
  = brand_quantity Working b.
Proof. apply (group_quantity String.leb). Qed.

Lemma status_quantity_absent c :
  c ∉ statuses brand_index status_of Working ->
  status_quantity status_of Working c = 0.
Proof.
  intros Hc. unfold status_quantity, with_brand.
  rewrite list_filter_filter, filter_none; [done|].
  intros l Hl [Hs Hb]. apply Hc, elem_of_statuses. by exists l.
Qed.

Lemma with_brand_statuses :
  status_quantity status_of Working Non_RIS + status_quantity status_of Working RIS
  = sumZ (quantity_shipped <$> with_brand Working).
Proof.
  unfold status_quantity. induction (with_brand Working) as [|l ls IH]; [done|].
  rewrite !sumZ_filter_cons. change (sumZ (quantity_shipped <$> l :: ls))
    with (quantity_shipped l + sumZ (quantity_shipped <$> ls)).
  rewrite <- IH. destruct (status_of l); repeat case_decide; try lia; done.
Qed.

Lemma with_brand_groups :
  sumZ (brand_quantity Working <$> sorted_keys String.leb (omap brand_index Working))
  = sumZ (quantity_shipped <$> with_brand Working).
Proof.
  unfold with_brand.
  rewrite <- (groups_quantity String.leb brand_index Working).
  by apply sumZ_fmap_ext.
Qed.

Lemma pivot_table_margins_Some t :
  pivot_table_margins status_of Working = Some t ->
  let p := pivot_table String.leb brand_index status_of Working in
  (rows p = [] /\ t = p)
  \/ t = Table (columns p ++ ["Grand Total"])
         (((fun r => (r.1, r.2 ++ [brand_quantity Working r.1])) <$> rows p)
          ++ [("Grand Total",
               (status_quantity status_of Working
                  <$> statuses brand_index status_of Working)
               ++ [sumZ (quantity_shipped <$> with_brand Working)])]).
Proof.
  unfold pivot_table_margins. cbn zeta.
  destruct (rows (pivot_table String.leb brand_index status_of Working)) eqn:E.
  - intros [= <-]. by left.
  - case_decide; [done|]. intros [= <-]. by right.
Qed.
End MarginFacts.

Lemma with_percentages_value0 t rs :
  with_percentages t = Some rs ->
  rs = (fun x => summary x.1 (value0 (columns t) x "Non RIS")
                             (value0 (columns t) x "RIS")
                             (value0 (columns t) x "Grand Total")) <$> rows t.
Proof.
  unfold with_percentages. intros Hrs%mapM_Some.
  induction Hrs as [|x y xs ys Hxy Hrs IH]; [done|].
  cbn [fmap list_fmap]. f_equal; [|exact IH].
  unfold summary_of_row in Hxy. unfold value0.
  destruct (value (columns t) x "Non RIS"); [|done].
  destruct (value (columns t) x "RIS"); [|done].
  destruct (value (columns t) x "Grand Total"); [|done].
  by injection Hxy as <-.
Qed.

Section SummaryRows.
Variable status_of : line -> status.
Variable Working : list line.

Ltac absent E :=
  repeat match goal with
         | |- context [quantity brand_index status_of Working ?i ?c] =>
             rewrite (quantity_absent brand_index status_of Working i c)
               by (rewrite E; compute_done)
         | |- context [status_quantity status_of Working ?c] =>
             rewrite (status_quantity_absent status_of Working c)
               by (rewrite E; compute_done)
         end.

Lemma state_summary_rows rs :
  (t ← pivot_table_margins status_of Working;
   if label_in "Non RIS" (columns t) && label_in "RIS" (columns t)
      && label_in "Grand Total" (columns t)
   then with_percentages t else None) = Some rs ->
  rs = summaries status_of Working.
Proof.
  intros Hrs.
  destruct (pivot_table_margins status_of Working) as [t|] eqn:Et; [|done].
  cbn [mbind option_bind] in Hrs. revert Hrs.
  apply pivot_table_margins_Some in Et as [[_ ->]| ->]; unfold pivot_table;
    destruct (statuses_cases brand_index status_of Working) as [E|[E|[E|E]]];
    rewrite E; cbn -[Z.add with_percentages]; try done.
  intros ->%with_percentages_value0. cbn [rows columns].
  rewrite fmap_app, <- !list_fmap_compose. reflexivity.
Qed.

Lemma inventory_summary_rows rs :
  (t ← pivot_table_margins status_of Working;
   let t := ensure_column "Non RIS" (ensure_column "RIS" t) in
   let t := reorder ["Non RIS"; "RIS"; "Grand Total"] t in
   let t := if label_in "Grand Total" (columns t) then t else add_grand_total t in
   with_percentages t) = Some rs ->
  rs = [] \/ rs = summaries status_of Working.
Proof.
  intros Hrs.
  destruct (pivot_table_margins status_of Working) as [t|] eqn:Et; [|done].
  cbn [mbind option_bind] in Hrs. revert Hrs.
  apply pivot_table_margins_Some in Et as [[Hrows ->]| ->].
  - left. revert Hrows Hrs. unfold pivot_table. cbn [rows columns].
    intros Hkeys%fmap_nil_inv. rewrite Hkeys.
    destruct (statuses_cases brand_index status_of Working) as [E|[E|[E|E]]];
      rewrite E; cbn -[Z.add with_percentages];
      by intros ->%with_percentages_value0.
  - right. revert Hrs. unfold pivot_table, summaries.
    destruct (statuses_cases brand_index status_of Working) as [E|[E|[E|E]]];
      rewrite E; cbn -[Z.add with_percentages];
      intros ->%with_percentages_value0; cbn -[Z.add value0 summary];
      rewrite ?fmap_app, <- ?list_fmap_compose;
      (apply (f_equal2 app);
       [ apply Forall_fmap_ext, Forall_forall; intros b _; absent E; reflexivity
       | absent E; reflexivity ]).
Qed.
End SummaryRows.

Lemma brand_summary_rows Working rs :
  brand_summary Working = Some rs -> rs = summaries RIS_Status Working.
Proof. apply state_summary_rows. Qed.

Lemma inventory_brand_summary_rows Working rs :
  inventory_brand_summary Working = Some rs ->
  rs = [] \/ rs = summaries RIS_by_Table Working.
Proof. apply inventory_summary_rows. Qed.

(** ** Percentages *)

Lemma percentage_of_truediv (part total : Z) :
  0 <= part <= total ->
  percentage_of part total (fillna_0 (truediv part total)).
Proof.
  intros Hpart. unfold truediv.
  destruct (decide (total = 0)) as [->|Htotal].
  - rewrite decide_True by lia. exists 0%Q.
    repeat split; done.
  - assert (Hpos : (0 < inject_Z total)%Q).
    { change 0%Q with (inject_Z 0). rewrite <- Zlt_Qlt. lia. }
    exists (inject_Z part / inject_Z total)%Q.
    split; [done|]. split; [split|split; [done|reflexivity]].
    + apply Qle_shift_div_l; [done|]. rewrite Qmult_0_l.
      change 0%Q with (inject_Z 0). rewrite <- Zle_Qle. lia.
    + apply Qle_shift_div_r; [done|]. rewrite Qmult_1_l.
      rewrite <- Zle_Qle. lia.
Qed.

Section NonNegative.
Variable status_of : line -> status.
Variable Working : list line.
Hypothesis shipped : forall l, l ∈ Working -> 0 <= quantity_shipped l.

Lemma quantity_nonneg b c : 0 <= quantity brand_index status_of Working b c.
Proof.
  apply sumZ_fmap_nonneg. intros l [_ Hl]%list_elem_of_filter. by apply shipped.
Qed.

Lemma status_quantity_nonneg c : 0 <= status_quantity status_of Working c.
Proof.
  apply sumZ_fmap_nonneg. unfold with_brand.
  intros l [_ [_ Hl]%list_elem_of_filter]%list_elem_of_filter. by apply shipped.
Qed.

Lemma summaries_percentages r :
  r ∈ summaries status_of Working ->
  percentage_of (s_Non_RIS r) (s_Grand_Total r) (s_Non_RIS_pct r)
  /\ percentage_of (s_RIS r) (s_Grand_Total r) (s_RIS_pct r).
Proof.
  unfold summaries. rewrite elem_of_app, list_elem_of_fmap, list_elem_of_singleton.
  intros [(b & -> & _)| ->]; cbn [summary s_Non_RIS s_RIS s_Grand_Total
                                   s_Non_RIS_pct s_RIS_pct].
  - pose proof (quantity_nonneg b Non_RIS). pose proof (quantity_nonneg b RIS).
    pose proof (brand_quantity_statuses status_of Working b).
    split; apply percentage_of_truediv; lia.
  - pose proof (status_quantity_nonneg Non_RIS).
    pose proof (status_quantity_nonneg RIS).
    pose proof (with_brand_statuses status_of Working).
    split; apply percentage_of_truediv; lia.
Qed.
End NonNegative.

(** C6, as amended: when no order line has a negative quantity, in both
    brand-level summaries the two percentages of every row, the row of
    the margins included, are fractions between 0 and 1, equal to the
    quotient of their column by the total of the row, and 0 when that
    total is 0. *)
Theorem C6_percentages (Working : list line) (rs : list summary_row)
    (r : summary_row) :
  (forall l, l ∈ Working -> 0 <= quantity_shipped l) ->
  brand_summary Working = Some rs \/ inventory_brand_summary Working = Some rs ->
  r ∈ rs ->
  percentage_of (s_Non_RIS r) (s_Grand_Total r) (s_Non_RIS_pct r)
  /\ percentage_of (s_RIS r) (s_Grand_Total r) (s_RIS_pct r).
Proof.
  intros Hshipped [Hrs|Hrs] Hr.
  - apply brand_summary_rows in Hrs as ->.
    by apply (summaries_percentages RIS_Status Working).
  - apply inventory_brand_summary_rows in Hrs as [-> | ->].
    + by apply not_elem_of_nil in Hr.
    + by apply (summaries_percentages RIS_by_Table Working).
Qed.

Lemma C6_percentages_witness :
  let Working :=
    [ Line (Str "DED3") (Str "Delhi") (Str "Delhi") 10 (Str "Delhi") (Str "North")
           RIS (Str "A") Non_RIS;
      Line (Str "DED3") (Str "Haryana") (Str "Haryana") 5 (Str "Delhi") (Str "North")
           Non_RIS (Str "A") Non_RIS ] in
  let r := summary "A" 5 10 15 in
  brand_summary Working = Some [r; summary "Grand Total" 5 10 15]
  /\ percentage_of (s_Non_RIS r) (s_Grand_Total r) (s_Non_RIS_pct r)
  /\ percentage_of (s_RIS r) (s_Grand_Total r) (s_RIS_pct r).
Proof.
  intros Working r. split; [by vm_compute|].
  refine (C6_percentages Working [r; summary "Grand Total" 5 10 15] r _ _ _).
  - apply Forall_forall. repeat constructor; by vm_compute.
  - left. by vm_compute.
  - left.
Defined.

(** C6, as stated, fails: with a returned quantity the total of a row
    can be 0 while its columns are not, and the percentages are then
    infinite, which [fillna(0)] does not replace. *)
Lemma C6_counterexample :
  let Working :=
    Table ["fulfillment-center-id"; "ship-state"; "quantity-shipped"; "sku"]
          [ Order (Str "DED3") (Str "Delhi") NaN (Str "S1") (-5) NaN;
            Order (Str "DED3") (Str "Goa") NaN (Str "S1") 5 NaN ] in
  let FC_file :=
    Table ["FC"; "State"; "Cluster"] [FcRow (Str "DED3") (Str "Delhi") (Str "North")] in
  let PM :=
    Table ["a"; "b"; "sku"; "d"; "e"; "f"; "Brand"] [PmRow (Str "S1") (Str "A")] in
  match process Working FC_file PM with
  | Done r =>
      (fun s => (s_Brand s, s_Non_RIS s, s_RIS s, s_Grand_Total s,
                 s_Non_RIS_pct s, s_RIS_pct s)) <$> r_brand_summary r
  | _ => []
  end
  = [ ("A", 5, -5, 0, Inf, NegInf); ("Grand Total", 5, -5, 0, Inf, NegInf) ].
Proof. by vm_compute. Qed.

(** ** Lines without a grouping key *)

Section Kept.
Variable status_of : line -> status.
Variable Working : list line.

Lemma leaves_of_kept_lines (pivot : frame key) F :
  rows pivot = F <$> sorted_keys key_leb (omap detail_index Working) ->
  leaf_rows detail_index status_of Working (columns pivot) F ->
  (forall k, k ∈ (rows pivot).*1
             <-> exists l, l ∈ Working /\ detail_index l = Some k)
  /\ value0 (columns pivot) (grand_total pivot) "Grand Total"
     = sumZ (quantity_shipped
               <$> filter (fun l => is_Some (detail_index l)) Working).
Proof.
  intros Hrows HF. split.
  - intros k. rewrite Hrows, <- list_fmap_compose.
    rewrite <- (elem_of_pivot_keys key_leb detail_index Working k).
    assert (Hfst : fst ∘ F <$> sorted_keys key_leb (omap detail_index Working)
                   = id <$> sorted_keys key_leb (omap detail_index Working)).
    { apply Forall_fmap_ext, Forall_forall. intros i _. by destruct (HF i). }
    by rewrite Hfst, list_fmap_id.
  - unfold grand_total. rewrite value0_col_sums, Hrows.
    by apply (leaf_rows_total key_leb detail_index status_of Working).
Qed.

Lemma summaries_of_branded_lines :
  exists brands total,
    summaries status_of Working = brands ++ [total]
    /\ s_Brand total = "Grand Total"
    /\ s_Grand_Total total = sumZ (quantity_shipped <$> with_brand Working)
    /\ sumZ (s_Grand_Total <$> brands)
       = sumZ (quantity_shipped <$> with_brand Working)
    /\ forall b, b ∈ s_Brand <$> brands
                 <-> exists l, l ∈ Working /\ brand_index l = Some b.
Proof.
  eexists _, _. split; [reflexivity|]. split; [done|]. split; [done|]. split.
  - rewrite <- list_fmap_compose. apply with_brand_groups.
  - intros b. rewrite <- list_fmap_compose.
    rewrite <- (elem_of_pivot_keys String.leb brand_index Working b).
    by rewrite list_fmap_id.
Qed.
End Kept.

(** C3, as amended: an order line whose brand, fulfillment state and
    corrected ship state are all present (a blank text is present) is
    in the leaf row of its own group in both detailed pivots, an order
    line with a missing one is in no row, and the grand total of each
    pivot is the quantity of the lines that are in a row; likewise each
    brand summary has one row for each brand that is present, and its
    last row and the sum of its brand rows are the quantity of the
    lines that have a brand. *)
Theorem C3_lines_without_a_key_are_left_out (Working : list line) :
  let kept := filter (fun l => is_Some (detail_index l)) Working in
  let branded := filter (fun l => is_Some (brand_index l)) Working in
  (forall pivot,
     pivot = detailed_pivot Working \/ pivot = inventory_pivot Working ->
     (forall k, k ∈ (rows pivot).*1
                <-> exists l, l ∈ Working /\ detail_index l = Some k)
     /\ value0 (columns pivot) (grand_total pivot) "Grand Total"
        = sumZ (quantity_shipped <$> kept))
  /\ (forall rs,
        brand_summary Working = Some rs
        \/ inventory_brand_summary Working = Some rs ->
        rs <> [] ->
        exists brands total,
          rs = brands ++ [total]
          /\ s_Brand total = "Grand Total"
          /\ s_Grand_Total total = sumZ (quantity_shipped <$> branded)
          /\ sumZ (s_Grand_Total <$> brands) = sumZ (quantity_shipped <$> branded)
          /\ forall b, b ∈ s_Brand <$> brands
                       <-> exists l, l ∈ Working /\ brand_index l = Some b).
Proof.
  cbn zeta. split.
  - intros pivot [-> | ->].
    + destruct (pivot_with_grand_total_shape key_leb detail_index RIS_Status Working)
        as (F & HF & Hleaf).
      by apply (leaves_of_kept_lines RIS_Status Working _ F).
    + destruct (inventory_columns_shape key_leb detail_index RIS_by_Table Working)
        as (F & HF & Hleaf).
      by apply (leaves_of_kept_lines RIS_by_Table Working _ F).
  - intros rs [Hrs|Hrs] Hne.
    + apply brand_summary_rows in Hrs as ->.
      apply summaries_of_branded_lines.
    + apply inventory_brand_summary_rows in Hrs as [-> | ->]; [done|].
      apply summaries_of_branded_lines.
Qed.

Lemma C3_lines_without_a_key_are_left_out_witness :
  let Working :=
    [ Line (Str "DED3") (Str "Delhi") (Str "Delhi") 10 (Str "Delhi") (Str "North")
           RIS (Str "") Non_RIS;
      Line (Str "DED3") (Str "Goa") (Str "Goa") 5 (Str "Delhi") (Str "North")
           Non_RIS (Str "A") Non_RIS;
      Line (Str "DED3") (Str "Goa") (Str "Goa") 7 (Str "Delhi") (Str "North")
           Non_RIS NaN Non_RIS ] in
  (rows (detailed_pivot Working)).*1 = [("", "Delhi", "Delhi"); ("A", "Delhi", "Goa")]
  /\ value0 (columns (detailed_pivot Working))
            (grand_total (detailed_pivot Working)) "Grand Total" = 15.
Proof.
  intros Working. split; [by vm_compute|].
  exact (proj2 (proj1 (C3_lines_without_a_key_are_left_out Working)
                  (detailed_pivot Working) (or_introl eq_refl))).
Defined.

(** C3, as stated, fails: a line whose SKU is not in the product master
    has no brand, is in no row of the tables, and its quantity (7 of 22)
    is not in the totals. *)
Lemma C3_counterexample :
  let Working :=
    Table ["fulfillment-center-id"; "ship-state"; "quantity-shipped"; "sku"]
          [ Order (Str "DED3") (Str "Delhi") NaN (Str "S1") 10 NaN;
            Order (Str "DED3") (Str "Goa") NaN (Str "S1") 5 NaN;
            Order (Str "DED3") (Str "Goa") NaN (Str "S9") 7 NaN ] in
  let FC_file :=
    Table ["FC"; "State"; "Cluster"] [FcRow (Str "DED3") (Str "Delhi") (Str "North")] in
  let PM :=
    Table ["a"; "b"; "sku"; "d"; "e"; "f"; "Brand"] [PmRow (Str "S1") (Str "A")] in
  match process Working FC_file PM with
  | Done r =>
      ( (fun l => (Brand l, quantity_shipped l)) <$> r_Working r,
        rows (r_detailed_pivot_with_totals r),
        rows (r_inventory_pivot_with_totals r),
        (fun s => (s_Brand s, s_Grand_Total s)) <$> r_brand_summary r,
        (fun s => (s_Brand s, s_Grand_Total s)) <$> r_inventory_brand_summary r )
  | _ => ([], [], [], [], [])
  end
  = ( [(Str "A", 10); (Str "A", 5); (NaN, 7)],
      [ (("A", "A Total", ""), [5; 10; 15]);
        (("A", "Delhi", "Delhi"), [0; 10; 10]);
        (("A", "Delhi", "Goa"), [5; 0; 5]);
        (("A", "Delhi Total", ""), [5; 10; 15]);
        (("Grand Total", "", ""), [5; 10; 15]) ],
      [ (("A", "A Total", ""), [15; 0; 15]);
        (("A", "Delhi", "Delhi"), [10; 0; 10]);
        (("A", "Delhi", "Goa"), [5; 0; 5]);
        (("A", "Delhi Total", ""), [15; 0; 15]);
        (("Grand Total", "", ""), [15; 0; 15]) ],
      [("A", 15); ("Grand Total", 15)],
      [("A", 15); ("Grand Total", 15)] ).
Proof. by vm_compute. Qed.

(** * Further properties *)

(** ** What [normalize_text] keeps *)

Section Letters.
Import PyStr.

Lemma isword_not_space c : Char.isword c = true -> Char.isspace c = false.
Proof. by destruct c as [[] [] [] [] [] [] [] []]. Qed.

Lemma isword_lower c : Char.isword (Char.lower c) = Char.isword c.
Proof. by destruct c as [[] [] [] [] [] [] [] []]. Qed.

Lemma lower_lower c : Char.lower (Char.lower c) = Char.lower c.
Proof. by destruct c as [[] [] [] [] [] [] [] []]. Qed.

Lemma word_or_space_not_space c :
  negb (Ascii.eqb c Char.space) && (Char.isword c || Char.isspace c)
  = Char.isword c || (Char.isspace c && negb (Ascii.eqb c Char.space)).
Proof. by destruct c as [[] [] [] [] [] [] [] []]. Qed.

Lemma nbsp_replaced c :
  let c' := if Ascii.eqb c Char.nbsp then Char.space else c in
  Char.isword (Char.lower c') = Char.isword (Char.lower c)
  /\ (Char.isword (Char.lower c) = true -> Char.lower c' = Char.lower c).
Proof. by destruct c as [[] [] [] [] [] [] [] []]. Qed.

Lemma str_filter_ext p q s : (forall c, p c = q c) -> filter p s = filter q s.
Proof.
  intros Hpq. induction s as [|c s IH]; cbn [filter]; [done|].
  by rewrite Hpq, IH.
Qed.

Lemma str_filter_filter p q s : filter p (filter q s) = filter (fun c => p c && q c) s.
Proof.
  induction s as [|c s IH]; cbn [filter]; [done|].
  destruct (q c); cbn [filter]; rewrite ?andb_true_r, ?andb_false_r;
    [destruct (p c)|]; by rewrite IH.
Qed.

Lemma str_filter_app p s t : filter p (s +:+ t) = filter p s +:+ filter p t.
Proof.
  induction s as [|c s IH]; [done|].
  change (String c s +:+ t) with (String c (s +:+ t)).
  cbn [filter]. rewrite IH. by destruct (p c).
Qed.

Lemma str_map_app f s t : map f (s +:+ t) = map f s +:+ map f t.
Proof.
  induction s as [|c s IH]; [done|].
  change (String c s +:+ t) with (String c (s +:+ t)).
  cbn [map]. by rewrite IH.
Qed.

(** A filter that drops all whitespace does not see what [strip] and
    the collapse of whitespace runs change. *)
Section DropsSpace.
Variable p : ascii -> bool.
Hypothesis drops_space : forall c, Char.isspace c = true -> p c = false.

Lemma filter_lstrip s : filter p (lstrip s) = filter p s.
Proof.
  induction s as [|c s IH]; cbn [lstrip filter]; [done|].
  destruct (Char.isspace c) eqn:Hc; [|done].
  by rewrite (drops_space c Hc).
Qed.

Lemma filter_rstrip s : filter p (rstrip s) = filter p s.
Proof.
  induction s as [|c s IH]; cbn [rstrip filter]; [done|].
  rewrite <- IH. destruct (rstrip s) as [|c' r].
  - destruct (Char.isspace c) eqn:Hc; cbn [filter]; [|done].
    by rewrite (drops_space c Hc).
  - done.
Qed.

Lemma filter_strip s : filter p (strip s) = filter p s.
Proof. unfold strip. by rewrite filter_rstrip, filter_lstrip. Qed.

Lemma filter_collapse_spaces in_run s : filter p (collapse_spaces in_run s) = filter p s.
Proof.
  revert in_run. induction s as [|c s IH]; intros in_run;
    cbn [collapse_spaces filter]; [done|].
  destruct (Char.isspace c) eqn:Hc.
  - rewrite (drops_space c Hc). destruct in_run; [done|].
    cbn [filter]. by rewrite (drops_space Char.space eq_refl).
  - cbn [filter]. by rewrite IH.
Qed.

Lemma filter_all_space s : all_space s = true -> filter p s = "".
Proof.
  induction s as [|c s IH]; cbn [all_space filter]; [done|].
  intros [Hc Hs]%andb_true_iff. rewrite (drops_space c Hc). auto.
Qed.
End DropsSpace.

Lemma isword_drops_space c : Char.isspace c = true -> Char.isword c = false.
Proof.
  intros Hc. destruct (Char.isword c) eqn:Hw; [|done].
  apply isword_not_space in Hw. congruence.
Qed.
End Letters.

Section Trimming.
Import PyStr.

(** A filter that only drops whitespace commutes with [strip]. *)
Section DropsOnlySpace.
Variable p : ascii -> bool.
Hypothesis drops_only_space : forall c, p c = false -> Char.isspace c = true.

Lemma keeps_non_space c : Char.isspace c = false -> p c = true.
Proof.
  intros Hc. destruct (p c) eqn:Hp; [done|].
  apply drops_only_space in Hp. congruence.
Qed.

Lemma lstrip_filter s : lstrip (filter p s) = filter p (lstrip s).
Proof.
  induction s as [|c s IH]; cbn [lstrip filter]; [done|].
  destruct (Char.isspace c) eqn:Hc.
  - destruct (p c); cbn [lstrip]; by rewrite ?Hc.
  - rewrite (keeps_non_space c Hc). cbn [lstrip filter].
    by rewrite Hc, (keeps_non_space c Hc).
Qed.

Lemma filter_rstrip_empty s : filter p (rstrip s) = "" -> rstrip s = "".
Proof.
  induction s as [|c s IH]; cbn [rstrip]; [done|].
  destruct (rstrip s) as [|c' r].
  - destruct (Char.isspace c) eqn:Hc; [done|].
    cbn [filter]. by rewrite (keeps_non_space c Hc).
  - intros Hf. cbn [filter] in Hf.
    assert (Hr : filter p (String c' r) = "") by (by destruct (p c)).
    by apply IH in Hr.
Qed.

Lemma rstrip_filter s : rstrip (filter p s) = filter p (rstrip s).
Proof.
  induction s as [|c s IH]; [done|].
  cbn [filter rstrip]. destruct (p c) eqn:Hp.
  - cbn [rstrip]. rewrite IH. destruct (rstrip s) as [|c' r] eqn:Hr.
    + cbn [filter]. destruct (Char.isspace c); cbn [filter]; by rewrite ?Hp.
    + change (filter p (String c (String c' r)))
        with (if p c then String c (filter p (String c' r))
              else filter p (String c' r)).
      rewrite Hp.
      destruct (filter p (String c' r)) as [|c'' r'] eqn:Hf; [|done].
      rewrite <- Hr in Hf. apply filter_rstrip_empty in Hf. congruence.
  - rewrite IH. rewrite (drops_only_space c Hp).
    destruct (rstrip s) as [|c' r]; [done|].
    change (filter p (String c (String c' r)))
      with (if p c then String c (filter p (String c' r))
            else filter p (String c' r)).
    by rewrite Hp.
Qed.

Lemma strip_filter s : strip (filter p s) = filter p (strip s).
Proof. unfold strip. by rewrite lstrip_filter, rstrip_filter. Qed.
End DropsOnlySpace.

Lemma not_the_space c : Char.isspace c = false -> Ascii.eqb c Char.space = false.
Proof. by destruct c as [[] [] [] [] [] [] [] []]. Qed.

Lemma space_is_space c : negb (Ascii.eqb c Char.space) = false -> Char.isspace c = true.
Proof. by destruct c as [[] [] [] [] [] [] [] []]. Qed.

Lemma not_space_word_or_space c :
  not_space c && (Char.isword c || Char.isspace c) = Char.isword c.
Proof. by destruct c as [[] [] [] [] [] [] [] []]. Qed.

(** Once the runs of whitespace are single spaces, removing the spaces
    removes all whitespace. *)
Lemma remove_collapsed_spaces in_run s :
  remove_char Char.space (collapse_spaces in_run s) = filter not_space s.
Proof.
  unfold remove_char, not_space. revert in_run.
  induction s as [|c s IH]; intros in_run; cbn [collapse_spaces filter]; [done|].
  destruct (Char.isspace c) eqn:Hc; cbn [negb].
  - destruct in_run; [done|]. cbn [filter]. by rewrite IH.
  - cbn [filter]. by rewrite (not_the_space c Hc), IH.
Qed.

Lemma filter_not_space_cons c s :
  filter not_space (String c s)
  = if Char.isspace c then filter not_space s else String c (filter not_space s).
Proof. cbn [filter]. unfold not_space at 1. by destruct (Char.isspace c). Qed.

Lemma lstrip_no_space s : lstrip (filter not_space s) = filter not_space s.
Proof.
  induction s as [|c s IH]; [done|]. rewrite filter_not_space_cons.
  destruct (Char.isspace c) eqn:Hc; [done|]. cbn [lstrip]. by rewrite Hc.
Qed.

Lemma rstrip_no_space s : rstrip (filter not_space s) = filter not_space s.
Proof.
  induction s as [|c s IH]; [done|]. rewrite filter_not_space_cons.
  destruct (Char.isspace c) eqn:Hc; [done|]. cbn [rstrip].
  rewrite IH, Hc. by destruct (filter not_space s).
Qed.

Lemma strip_no_space s : strip (filter not_space s) = filter not_space s.
Proof. unfold strip. by rewrite lstrip_no_space, rstrip_no_space. Qed.

Lemma word_letters_nbsp s :
  word_letters (replace_char Char.nbsp Char.space s) = word_letters s.
Proof.
  unfold word_letters, lower, replace_char.
  induction s as [|c s IH]; cbn [map filter]; [done|].
  destruct (nbsp_replaced c) as [Hw Hl]. cbn zeta in Hw, Hl. rewrite Hw, IH.
  destruct (Char.isword (Char.lower c)) eqn:E; [|done]. by rewrite Hl.
Qed.

Lemma normalize_text_letters (s : string) :
  normalize_text (Str s) = word_letters s.
Proof.
  unfold normalize_text. cbn [isna py_str].
  unfold remove_char at 1.
  rewrite <- (strip_filter _ space_is_space).
  fold (remove_char Char.space
          (collapse_spaces false
             (drop_punctuation
                (strip (lower (replace_char Char.nbsp Char.space s)))))).
  rewrite remove_collapsed_spaces, strip_no_space.
  unfold drop_punctuation. rewrite str_filter_filter.
  rewrite (str_filter_ext _ Char.isword) by apply not_space_word_or_space.
  rewrite (filter_strip _ isword_drops_space).
  apply word_letters_nbsp.
Qed.

Lemma word_letters_alt s : word_letters s = lower (filter Char.isword s).
Proof.
  unfold word_letters, lower.
  induction s as [|c s IH]; cbn [map filter]; [done|].
  rewrite isword_lower. destruct (Char.isword c); cbn [map]; by rewrite IH.
Qed.

Lemma word_letters_app s t : word_letters (s +:+ t) = word_letters s +:+ word_letters t.
Proof. unfold word_letters, lower. by rewrite str_map_app, str_filter_app. Qed.

Lemma word_letters_cons c s :
  word_letters (String c s)
  = if Char.isword c then String (Char.lower c) (word_letters s) else word_letters s.
Proof. unfold word_letters, lower. cbn [map filter]. by rewrite isword_lower. Qed.

Lemma word_letters_all_space s : all_space s = true -> word_letters s = "".
Proof.
  intros Hs. rewrite word_letters_alt.
  by rewrite (filter_all_space _ isword_drops_space s Hs).
Qed.

Lemma word_letters_strip s : word_letters (strip s) = word_letters s.
Proof. by rewrite !word_letters_alt, (filter_strip _ isword_drops_space). Qed.

Lemma word_letters_remove_space s :
  word_letters (remove_char Char.space s) = word_letters s.
Proof.
  rewrite !word_letters_alt. unfold remove_char. rewrite str_filter_filter.
  f_equal. apply str_filter_ext. intros c.
  destruct (Char.isword c) eqn:Hw; [|done].
  apply isword_not_space, not_the_space in Hw. by rewrite Hw.
Qed.

Lemma word_letters_idemp s : word_letters (word_letters s) = word_letters s.
Proof.
  induction s as [|c s IH]; [done|]. rewrite word_letters_cons.
  destruct (Char.isword c) eqn:Hw; [|done].
  by rewrite word_letters_cons, isword_lower, Hw, lower_lower, IH.
Qed.

Lemma word_letters_same_letters a b :
  same_letters same_case_or_space a b -> word_letters a = word_letters b.
Proof.
  induction 1 as [|c d s t Hcd Hst IH]; [done|].
  rewrite !word_letters_cons, IH. destruct Hcd as [Hcase|[Hc Hd]].
  - unfold same_case in Hcase.
    by rewrite <- (isword_lower c), <- (isword_lower d), Hcase.
  - by destruct Hc as [-> | ->], Hd as [-> | ->].
Qed.

Lemma compared_strip_remove s :
  compared (Str s) = strip (remove_char Char.space s).
Proof.
  unfold compared, remove_char. cbn [py_str].
  by rewrite (strip_filter _ space_is_space).
Qed.
End Trimming.

(** X1: the normalized text of a text is its word characters (letters,
    digits, underscore), lower-cased, in their order: everything else
    is dropped, and nothing else is changed. *)
Theorem normalize_text_word_letters (s : string) :
  normalize_text (Str s) = word_letters s.
Proof. apply normalize_text_letters. Qed.

(** X2: [normalize_text] is idempotent: a normalized text is its own
    normalized text. *)
Theorem normalize_text_idempotent (s : cell) :
  normalize_text (Str (normalize_text s)) = normalize_text s.
Proof.
  destruct s as [|s]; [done|].
  by rewrite !normalize_text_letters, word_letters_idemp.
Qed.

(** X3: texts that differ only by letter case, by leading or trailing
    whitespace or by non-breaking spaces in place of regular ones have
    the same normalized text. *)
Theorem normalize_text_case_padding_nbsp (a b : string) :
  variant same_case_or_space a b ->
  normalize_text (Str a) = normalize_text (Str b).
Proof.
  intros [l1 r1 l2 r2 a' b' Hl1 Hr1 Hl2 Hr2 Hab].
  rewrite !normalize_text_letters, !word_letters_app.
  rewrite (word_letters_all_space l1 Hl1), (word_letters_all_space r1 Hr1).
  rewrite (word_letters_all_space l2 Hl2), (word_letters_all_space r2 Hr2).
  by rewrite (word_letters_same_letters a' b' Hab).
Qed.

Lemma normalize_text_case_padding_nbsp_witness :
  variant same_case_or_space
    (String Char.nbsp (String "T" (String "n" (String Char.nbsp "ab"))))
    "tN Ab  "
  /\ normalize_text (Str (String Char.nbsp (String "T" (String "n" (String Char.nbsp "ab")))))
     = normalize_text (Str "tN Ab  ").
Proof.
  assert (H : variant same_case_or_space
                (String Char.nbsp (String "T" (String "n" (String Char.nbsp "ab"))))
                "tN Ab  ").
  { apply (Variant same_case_or_space (String Char.nbsp "") "" "" "  "
             (String "T" (String "n" (String Char.nbsp "ab"))) "tN Ab");
      try reflexivity.
    repeat (constructor; [by left|]).
    constructor; [right; auto|].
    repeat (constructor; [by left|]). constructor. }
  split; [exact H|]. exact (normalize_text_case_padding_nbsp _ _ H).
Defined.

(** X4: a character that is not a word character (punctuation, a
    space, any whitespace) can be put anywhere in a text without
    changing its normalized text. *)
Theorem normalize_text_ignores_punctuation (a b : string) (c : ascii) :
  Char.isword c = false ->
  normalize_text (Str (a +:+ String c b)) = normalize_text (Str (a +:+ b)).
Proof.
  intros Hc.
  by rewrite !normalize_text_letters, !word_letters_app, word_letters_cons, Hc.
Qed.

Lemma normalize_text_ignores_punctuation_witness :
  normalize_text (Str ("tamil" +:+ String "-" "nadu"))
  = normalize_text (Str ("tamil" +:+ "nadu")).
Proof. exact (normalize_text_ignores_punctuation "tamil" "nadu" "-" eq_refl). Defined.

(** X5: the state-match rule does not see a regular space, wherever it
    is in either state. *)
Theorem ris_status_ignores_spaces (a b : string) (x : cell) :
  ris_status (Str (a +:+ String Char.space b)) x = ris_status (Str (a +:+ b)) x
  /\ ris_status x (Str (a +:+ String Char.space b)) = ris_status x (Str (a +:+ b)).
Proof.
  assert (H : compared (Str (a +:+ String Char.space b)) = compared (Str (a +:+ b))).
  { rewrite !compared_strip_remove. unfold PyStr.remove_char.
    by rewrite !str_filter_app. }
  unfold ris_status. by rewrite H.
Qed.

(** X6: two state texts that the state-match rule finds equal have the
    same normalized text: a line of text states that is RIS has a ship
    state that the correction step sends to the class of its
    fulfillment state. *)
Theorem ris_status_RIS_normalized (a b : string) :
  ris_status (Str a) (Str b) = RIS ->
  normalize_text (Str a) = normalize_text (Str b).
Proof.
  intros H%ris_status_RIS. rewrite !normalize_text_letters.
  rewrite <- (word_letters_strip a), <- (word_letters_strip b).
  rewrite <- (word_letters_remove_space (PyStr.strip a)).
  rewrite <- (word_letters_remove_space (PyStr.strip b)).
  unfold compared in H. cbn [py_str] in H. by rewrite H.
Qed.

Lemma ris_status_RIS_normalized_witness :
  ris_status (Str " Tamil Nadu") (Str "TamilNadu ") = RIS
  /\ normalize_text (Str " Tamil Nadu") = normalize_text (Str "TamilNadu ").
Proof.
  split; [by vm_compute|].
  apply (ris_status_RIS_normalized " Tamil Nadu" "TamilNadu "). by vm_compute.
Defined.

(** ** The canonical map and what [safe_correct] returns *)

Lemma canon_entry_lookup m s k :
  canon_entry m s !! k
  = if decide (normalize_text (Str s) <> "" /\ normalize_text (Str s) = k)
    then Some (PyStr.strip s) else m !! k.
Proof.
  unfold canon_entry. case_decide as Hblank.
  - rewrite decide_False; [done|]. by intros [? _].
  - rewrite lookup_insert. case_decide as Hk.
    + by rewrite decide_True.
    + rewrite decide_False; [done|]. by intros [_ ?].
Qed.

(** Every entry of the map is a state of the table, stripped, under a
    non-empty text. *)
Lemma foldl_canon_entry_values l k v :
  foldl canon_entry ∅ l !! k = Some v -> v ∈ PyStr.strip <$> l /\ k <> "".
Proof.
  induction l as [|s l IH] using rev_ind; [by cbn; rewrite lookup_empty|].
  rewrite foldl_snoc, canon_entry_lookup, fmap_app, elem_of_app.
  case_decide as Hk.
  - intros [= <-]. destruct Hk as [Hne <-]. split; [right; left|done].
  - intros [Hv Hne]%IH. by split; [left|].
Qed.

(** Every state of the table with a non-empty normalized text has an
    entry. *)
Lemma foldl_canon_entry_dom l s :
  s ∈ l -> normalize_text (Str s) <> "" ->
  is_Some (foldl canon_entry ∅ l !! normalize_text (Str s)).
Proof.
  induction l as [|s' l IH] using rev_ind; [by intros ?%elem_of_nil|].
  rewrite foldl_snoc, canon_entry_lookup, elem_of_app, list_elem_of_singleton.
  intros Hs Hne. case_decide as Hk; [done|].
  destruct Hs as [Hs| ->]; [by apply IH|].
  by destruct Hk.
Qed.

Lemma fc_states_strip State : PyStr.strip <$> fc_states State = fc_states State.
Proof.
  rewrite <- (list_fmap_id (fc_states State)) at 2.
  apply Forall_fmap_ext. apply fc_states_stripped.
Qed.

Lemma canon_map_lookup State k v :
  canon_map State !! k = Some v ->
  v ∈ fc_states State /\ k <> "" /\ normalize_text (Str v) = k.
Proof.
  intros H. pose proof (canon_map_canonical State k v H) as Hk.
  apply foldl_canon_entry_values in H as [Hv Hne].
  by rewrite fc_states_strip in Hv.
Qed.

Lemma canon_map_dom State s :
  s ∈ fc_states State -> normalize_text (Str s) <> "" ->
  is_Some (canon_map State !! normalize_text (Str s)).
Proof. apply foldl_canon_entry_dom. Qed.

Lemma safe_correct_known_state (State : list cell) (raw : cell) (s : string) :
  s ∈ fc_states State ->
  normalize_text raw = normalize_text (Str s) ->
  normalize_text raw <> "" ->
  exists v,
    safe_correct raw (canon_map State) = Str v
    /\ v ∈ fc_states State
    /\ normalize_text (Str v) = normalize_text raw.
Proof.
  intros Hs Hraw Hne. rewrite Hraw in Hne.
  destruct (canon_map_dom State s Hs Hne) as [v Hv].
  exists v. unfold safe_correct. rewrite Hraw, Hv.
  apply canon_map_lookup in Hv as (? & _ & ?). by rewrite <- Hraw in *.
Qed.

(** X7: a ship state whose normalized text is that of a state of the FC
    table, and not empty, is replaced by a state of the table with that
    normalized text. *)
Theorem safe_correct_matched (State : list cell) (raw : cell) (s : string) :
  s ∈ fc_states State ->
  normalize_text raw = normalize_text (Str s) ->
  normalize_text raw <> "" ->
  exists v,
    safe_correct raw (canon_map State) = Str v
    /\ v ∈ fc_states State
    /\ normalize_text (Str v) = normalize_text raw.
Proof. apply safe_correct_known_state. Qed.

Lemma safe_correct_matched_witness :
  exists v,
    safe_correct (Str "TAMIL-NADU") (canon_map [Str "Delhi"; NaN; Str " Tamil Nadu "])
    = Str v
    /\ v ∈ fc_states [Str "Delhi"; NaN; Str " Tamil Nadu "]
    /\ normalize_text (Str v) = normalize_text (Str "TAMIL-NADU").
Proof.
  apply (safe_correct_matched [Str "Delhi"; NaN; Str " Tamil Nadu "]
           (Str "TAMIL-NADU") "Tamil Nadu").
  - compute_done.
  - by vm_compute.
  - by vm_compute.
Defined.

(** X8: a ship state that is missing, blank or without a word character,
    or whose normalized text is that of no state of the FC table, is
    returned as it is. *)
Theorem safe_correct_unmatched (State : list cell) (raw : cell) :
  (forall s, s ∈ fc_states State ->
             normalize_text (Str s) = normalize_text raw ->
             normalize_text raw = "") ->
  safe_correct raw (canon_map State) = raw.
Proof.
  intros Hnone. unfold safe_correct.
  destruct (canon_map State !! normalize_text raw) as [v|] eqn:Hv; [|done].
  apply canon_map_lookup in Hv as (Hin & Hne & Hk).
  by specialize (Hnone v Hin Hk).
Qed.

Lemma safe_correct_unmatched_witness :
  safe_correct NaN (canon_map [Str "Delhi"; Str " - "; NaN]) = NaN.
Proof.
  apply (safe_correct_unmatched [Str "Delhi"; Str " - "; NaN] NaN).
  intros s _ _. reflexivity.
Defined.

(** X9: when no two states of the FC table have the same normalized text, a
    state of the table (stripped, with a word character) is corrected
    to itself. *)
Theorem safe_correct_canonical_state (State : list cell) (s : string) :
  (forall s1 s2, s1 ∈ fc_states State -> s2 ∈ fc_states State ->
                 normalize_text (Str s1) = normalize_text (Str s2) -> s1 = s2) ->
  s ∈ fc_states State ->
  normalize_text (Str s) <> "" ->
  safe_correct (Str s) (canon_map State) = Str s.
Proof.
  intros Huniq Hs Hne.
  destruct (safe_correct_known_state State (Str s) s Hs eq_refl Hne) as (v & -> & Hv & Hk).
  f_equal. by apply Huniq.
Qed.

(** X10: of the states of the FC table with the same normalized text, the
    last is the canonical one. *)
Theorem canon_map_last_wins (State : list cell) (s : string) (raw : cell) :
  normalize_text raw = normalize_text (Str (PyStr.strip s)) ->
  normalize_text raw <> "" ->
  safe_correct raw (canon_map (State ++ [Str s])) = Str (PyStr.strip s).
Proof.
  intros Hraw Hne. unfold safe_correct, canon_map, fc_states.
  rewrite filter_app, fmap_app. cbn [filter list_filter fmap list_fmap].
  rewrite decide_True by done. cbn [fmap list_fmap py_str].
  rewrite foldl_snoc, canon_entry_lookup, decide_True.
  - by rewrite strip_idemp.
  - by rewrite <- Hraw.
Qed.

Lemma canon_map_last_wins_witness :
  safe_correct (Str "DELHI") (canon_map [Str "Delhi"; Str " delhi "]) = Str "delhi".
Proof.
  apply (canon_map_last_wins [Str "Delhi"] " delhi " (Str "DELHI")); by vm_compute.
Defined.

Lemma safe_correct_canonical_state_witness :
  safe_correct (Str "Goa") (canon_map [Str "Delhi"; Str " Goa"]) = Str "Goa".
Proof.
  apply (safe_correct_canonical_state [Str "Delhi"; Str " Goa"] "Goa").
  - change (fc_states [Str "Delhi"; Str " Goa"]) with ["Delhi"; "Goa"].
    intros s1 s2 H1 H2 Heq.
    apply elem_of_cons in H1 as [->|H1]; [|apply list_elem_of_singleton in H1 as ->];
      (apply elem_of_cons in H2 as [->|H2]; [|apply list_elem_of_singleton in H2 as ->]);
      try done; by vm_compute in Heq.
  - compute_done.
  - by vm_compute.
Defined.

(** ** Left joins *)

Section MergeLeft.
Context {A B K : Type} `{EqDecision K}.
Variable left_on : A -> K.
Variable right_on : B -> K.
Implicit Types (left : list A) (right : list B).

Lemma merge_left_cons a left right :
  merge_left left_on right_on (a :: left) right
  = merge_left left_on right_on [a] right ++ merge_left left_on right_on left right.
Proof. unfold merge_left. rewrite !bind_cons. cbn. by rewrite app_nil_r. Qed.

Lemma merge_left_one a right :
  merge_left left_on right_on [a] right
  = match filter (fun b => right_on b = left_on a) right with
    | [] => [(a, None)]
    | bs => (fun b => (a, Some b)) <$> bs
    end.
Proof. unfold merge_left. rewrite bind_cons. cbn. by rewrite app_nil_r. Qed.

Lemma merge_left_one_elem a right x ob :
  (x, ob) ∈ merge_left left_on right_on [a] right
  <-> x = a /\ match ob with
               | Some b => b ∈ right /\ right_on b = left_on a
               | None => forall b, b ∈ right -> right_on b <> left_on a
               end.
Proof.
  rewrite merge_left_one.
  destruct (filter (fun b => right_on b = left_on a) right) as [|b0 bs] eqn:E.
  - rewrite list_elem_of_singleton. split.
    + intros [= -> ->]. split; [done|]. intros b Hb Hk.
      assert (Hin : b ∈ filter (fun b => right_on b = left_on a) right)
        by by apply list_elem_of_filter.
      rewrite E in Hin. by apply elem_of_nil in Hin.
    + intros [-> Hob]. destruct ob as [b|]; [|done]. destruct Hob as [Hb Hk].
      assert (Hin : b ∈ filter (fun b => right_on b = left_on a) right)
        by by apply list_elem_of_filter.
      rewrite E in Hin. by apply elem_of_nil in Hin.
  - rewrite <- E, list_elem_of_fmap. split.
    + intros (b & [= -> ->] & [Hk Hb]%list_elem_of_filter). done.
    + intros [-> Hob]. destruct ob as [b|].
      * exists b. split; [done|]. apply list_elem_of_filter. by destruct Hob.
      * exfalso. apply (Hob b0).
        -- apply (list_elem_of_filter (fun b => right_on b = left_on a) right b0).
           rewrite E. left.
        -- apply (proj1 (list_elem_of_filter (fun b => right_on b = left_on a) right b0)).
           rewrite E. left.
Qed.

(** A pair is in the join exactly when its left row is in the left
    table and its right row is a row of the right table with the same
    key, or nothing when the right table has no row with that key. *)
Lemma elem_of_merge_left left right a ob :
  (a, ob) ∈ merge_left left_on right_on left right
  <-> a ∈ left
      /\ match ob with
         | Some b => b ∈ right /\ right_on b = left_on a
         | None => forall b, b ∈ right -> right_on b <> left_on a
         end.
Proof.
  induction left as [|x left IH].
  - split; [by intros ?%elem_of_nil | by intros [?%elem_of_nil _]].
  - rewrite merge_left_cons, elem_of_app, IH, merge_left_one_elem, elem_of_cons.
    split.
    + intros [[-> Hob]|[Ha Hob]]; auto.
    + intros [[->|Ha] Hob]; auto.
Qed.

Lemma merge_left_one_length a right :
  (1 <= length (merge_left left_on right_on [a] right))%nat
  /\ (merge_left left_on right_on [a] right).*1
     = replicate (length (merge_left left_on right_on [a] right)) a.
Proof.
  rewrite merge_left_one.
  destruct (filter (fun b => right_on b = left_on a) right) as [|b0 bs].
  - split; [done|reflexivity].
  - rewrite length_fmap. split; [cbn; lia|].
    rewrite <- list_fmap_compose. generalize (b0 :: bs). intros l.
    induction l as [|b l IH]; [done|]. cbn. by f_equal.
Qed.

(** A left join drops no left row: the rows of the left table come out
    in their order, each at least once. *)
Lemma merge_left_keeps_left left right :
  (length left <= length (merge_left left_on right_on left right))%nat
  /\ exists copies : list nat,
       length copies = length left
       /\ Forall (fun n => 1 <= n)%nat copies
       /\ (merge_left left_on right_on left right).*1
          = mjoin (zip_with replicate copies left).
Proof.
  induction left as [|a left (Hlen & copies & Hc & Hpos & Hfst)].
  - split; [done|]. by exists [].
  - rewrite merge_left_cons, length_app, fmap_app.
    destruct (merge_left_one_length a right) as [Hone Hrep].
    split; [cbn [length]; lia|].
    exists (length (merge_left left_on right_on [a] right) :: copies).
    split; [cbn [length]; lia|]. split; [by constructor|].
    cbn [zip_with mjoin list_join]. by rewrite <- Hrep, Hfst.
Qed.

Lemma filter_unique_key right k :
  NoDup (right_on <$> right) ->
  (length (filter (fun b => right_on b = k) right) <= 1)%nat.
Proof.
  induction right as [|b right IH]; [intros _; cbn; lia|].
  rewrite fmap_cons, NoDup_cons. intros [Hb Hnd].
  rewrite filter_cons. case_decide as Hk; [|by apply IH].
  rewrite filter_none; [cbn; lia|].
  intros b' Hb' Hk'. apply Hb. rewrite Hk, <- Hk'.
  by apply list_elem_of_fmap_2.
Qed.

(** When the keys of the right table are distinct, the join has
    exactly the rows of the left table, in their order. *)
Lemma merge_left_unique_keys left right :
  NoDup (right_on <$> right) ->
  (merge_left left_on right_on left right).*1 = left.
Proof.
  intros Hnd. induction left as [|a left IH]; [done|].
  rewrite merge_left_cons, fmap_app, IH, merge_left_one.
  pose proof (filter_unique_key right (left_on a) Hnd) as Hlen.
  destruct (filter (fun b => right_on b = left_on a) right) as [|b0 [|b1 bs]];
    [done|done|cbn in Hlen; lia].
Qed.
End MergeLeft.

(** ** The processed order lines *)

Section Enriched.
Variable Working : table order.
Variable FC_table : list fc_row.
Variable PM_lookup : list pm_row.

(** The line that an order gives with what the two joins attach. *)
Lemma enrich_elem l :
  l ∈ enrich Working FC_table PM_lookup
  <-> exists w f p,
        (w, f) ∈ merge_fc (rows Working) FC_table
        /\ (w, p) ∈ merge_left o_sku lookup_key [w] PM_lookup
        /\ l = {| fulfillment_center_id := o_fulfillment_center_id w;
                  ship_state_original := backup Working w;
                  ship_state :=
                    safe_correct (backup Working w) (canon_map (State <$> FC_table));
                  quantity_shipped := o_quantity_shipped w;
                  fulfillment_state := attached State f;
                  cluster := attached Cluster f;
                  RIS_Status := ris_status (backup Working w) (attached State f);
                  Brand := attached pm_Brand p;
                  RIS_by_Table :=
                    ris_status_from_ixd (receive_centre Working w)
                                        (o_fulfillment_center_id w) |}.
Proof.
  unfold enrich. cbn zeta. rewrite list_elem_of_bind. split.
  - intros ([w f] & Hl & Hwf). apply list_elem_of_bind in Hl as ([w' p] & Hl & Hp).
    apply list_elem_of_singleton in Hl.
    assert (w' = w) as -> by (by apply merge_left_one_elem in Hp as [-> _]).
    by exists w, f, p.
  - intros (w & f & p & Hwf & Hp & ->). exists (w, f). split; [|done].
    apply list_elem_of_bind. exists (w, p). split; [|done].
    by apply list_elem_of_singleton.
Qed.
End Enriched.

Section EnrichedLines.
Variable Working : table order.
Variable FC_table : list fc_row.
Variable PM_lookup : list pm_row.

(** X11: every processed line is an order with the state and cluster of an
    FC row that has its normalized code, or with none when no FC row
    has it, and with the brand of a product-master row that has its
    SKU, or with none when no row has it. *)
Theorem enrich_joins (l : line) :
  l ∈ enrich Working FC_table PM_lookup ->
  exists w,
    w ∈ rows Working
    /\ fulfillment_center_id l = o_fulfillment_center_id w
    /\ quantity_shipped l = o_quantity_shipped w
    /\ ((exists f, f ∈ FC_table
                   /\ normalize_value (FC f) = normalize_value (o_fulfillment_center_id w)
                   /\ fulfillment_state l = State f /\ cluster l = Cluster f)
        \/ ((forall f, f ∈ FC_table ->
                       normalize_value (FC f) <> normalize_value (o_fulfillment_center_id w))
            /\ fulfillment_state l = NaN /\ cluster l = NaN))
    /\ ((exists p, p ∈ PM_lookup /\ lookup_key p = o_sku w /\ Brand l = pm_Brand p)
        \/ ((forall p, p ∈ PM_lookup -> lookup_key p <> o_sku w) /\ Brand l = NaN)).
Proof.
  intros (w & f & p & Hf & Hp & ->)%enrich_elem.
  apply elem_of_merge_left in Hf as [Hw Hf].
  apply merge_left_one_elem in Hp as [_ Hp].
  exists w. cbn. repeat split; [done|..].
  - destruct f as [f|]; [left; exists f; by destruct Hf | by right].
  - destruct p as [p|]; [left; exists p; by destruct Hp | by right].
Qed.

(** X12: every processed line has the state-match label of its original
    ship state (not of the corrected one) and a corrected ship state
    with the normalized text of the original. *)
Theorem enrich_labels (l : line) :
  l ∈ enrich Working FC_table PM_lookup ->
  RIS_Status l = ris_status (ship_state_original l) (fulfillment_state l)
  /\ ship_state l
     = safe_correct (ship_state_original l) (canon_map (State <$> FC_table))
  /\ normalize_text (ship_state l) = normalize_text (ship_state_original l).
Proof.
  intros (w & f & p & _ & _ & ->)%enrich_elem. cbn. repeat split.
  unfold safe_correct.
  destruct (canon_map (State <$> FC_table) !! normalize_text (backup Working w))
    as [v|] eqn:E; [|done].
  by apply canon_map_canonical in E.
Qed.

(** X13: no order is dropped: every order has a processed line. *)
Theorem enrich_keeps_orders (w : order) :
  w ∈ rows Working ->
  exists l,
    l ∈ enrich Working FC_table PM_lookup
    /\ fulfillment_center_id l = o_fulfillment_center_id w
    /\ ship_state_original l = backup Working w
    /\ quantity_shipped l = o_quantity_shipped w.
Proof.
  intros Hw.
  assert (exists f, (w, f) ∈ merge_fc (rows Working) FC_table) as [f Hf].
  { destruct (decide (Exists (fun f => normalize_value (FC f)
                                       = normalize_value (o_fulfillment_center_id w))
                             FC_table)) as [Hex|Hno].
    - apply Exists_exists in Hex as (f & Hf & Hk). exists (Some f).
      by apply elem_of_merge_left.
    - exists None. apply elem_of_merge_left. split; [done|].
      intros f Hf Hk. apply Hno, Exists_exists. by exists f. }
  assert (exists p, (w, p) ∈ merge_left o_sku lookup_key [w] PM_lookup) as [p Hp].
  { destruct (decide (Exists (fun p => lookup_key p = o_sku w) PM_lookup))
      as [Hex|Hno].
    - apply Exists_exists in Hex as (p & Hp & Hk). exists (Some p).
      by apply merge_left_one_elem.
    - exists None. apply merge_left_one_elem. split; [done|].
      intros p Hp Hk. apply Hno, Exists_exists. by exists p. }
  eexists. split; [apply enrich_elem; by exists w, f, p|]. done.
Qed.
End EnrichedLines.

Lemma enrich_joins_witness :
  let Working :=
    Table ["fulfillment-center-id"; "ship-state"; "quantity-shipped"; "sku"]
          [ Order (Str "ded3") (Str "DELHI") NaN (Str "S1") 10 NaN ] in
  let FC_table := [FcRow (Str "DED3") (Str "Delhi") (Str "North")] in
  let l := Line (Str "ded3") (Str "DELHI") (Str "Delhi") 10 (Str "Delhi") (Str "North")
                Non_RIS NaN Non_RIS in
  exists w,
    w ∈ rows Working
    /\ fulfillment_center_id l = o_fulfillment_center_id w
    /\ quantity_shipped l = o_quantity_shipped w
    /\ ((exists f, f ∈ FC_table
                   /\ normalize_value (FC f) = normalize_value (o_fulfillment_center_id w)
                   /\ fulfillment_state l = State f /\ cluster l = Cluster f)
        \/ ((forall f, f ∈ FC_table ->
                       normalize_value (FC f) <> normalize_value (o_fulfillment_center_id w))
            /\ fulfillment_state l = NaN /\ cluster l = NaN))
    /\ ((exists p, p ∈ [PmRow (Str "S2") (Str "A")]
                   /\ lookup_key p = o_sku w /\ Brand l = pm_Brand p)
        \/ ((forall p, p ∈ [PmRow (Str "S2") (Str "A")] -> lookup_key p <> o_sku w)
            /\ Brand l = NaN)).
Proof.
  intros Working FC_table l.
  apply (enrich_joins Working FC_table [PmRow (Str "S2") (Str "A")] l).
  vm_compute. left.
Defined.

Lemma enrich_labels_witness :
  let Working :=
    Table ["fulfillment-center-id"; "ship-state"; "quantity-shipped"; "sku"]
          [ Order (Str "ded3") (Str "DELHI") NaN (Str "S1") 10 NaN ] in
  let FC_table := [FcRow (Str "DED3") (Str "Delhi") (Str "North")] in
  let l := Line (Str "ded3") (Str "DELHI") (Str "Delhi") 10 (Str "Delhi") (Str "North")
                Non_RIS NaN Non_RIS in
  RIS_Status l = ris_status (ship_state_original l) (fulfillment_state l)
  /\ ship_state l
     = safe_correct (ship_state_original l) (canon_map (State <$> FC_table))
  /\ normalize_text (ship_state l) = normalize_text (ship_state_original l).
Proof.
  intros Working FC_table l.
  apply (enrich_labels Working FC_table [PmRow (Str "S2") (Str "A")] l).
  vm_compute. left.
Defined.

Lemma enrich_keeps_orders_witness :
  let w := Order (Str "BLR7") (Str "Goa") NaN (Str "S9") 5 NaN in
  let Working :=
    Table ["fulfillment-center-id"; "ship-state"; "quantity-shipped"; "sku"] [w] in
  exists l,
    l ∈ enrich Working [] []
    /\ fulfillment_center_id l = o_fulfillment_center_id w
    /\ ship_state_original l = backup Working w
    /\ quantity_shipped l = o_quantity_shipped w.
Proof.
  intros w Working. apply (enrich_keeps_orders Working [] [] w).
  cbn [rows]. by apply list_elem_of_singleton.
Defined.

Lemma enrich_cons cols w ws FC_table PM_lookup :
  enrich (Table cols (w :: ws)) FC_table PM_lookup
  = enrich (Table cols [w]) FC_table PM_lookup
    ++ enrich (Table cols ws) FC_table PM_lookup.
Proof.
  unfold enrich, merge_fc. cbn [rows columns].
  by rewrite merge_left_cons, bind_app.
Qed.

(** X14: when the FC table has no two rows with the same normalized code and
    the product master no two rows with the same SKU, the processed
    table has exactly one line for each order, in the order of the
    orders, with its code, original ship state and quantity. *)
Theorem enrich_one_line_per_order (Working : table order)
    (FC_table : list fc_row) (PM_lookup : list pm_row) :
  NoDup ((fun f => normalize_value (FC f)) <$> FC_table) ->
  NoDup (lookup_key <$> PM_lookup) ->
  (fun l => (fulfillment_center_id l, ship_state_original l, quantity_shipped l))
    <$> enrich Working FC_table PM_lookup
  = (fun w => (o_fulfillment_center_id w, backup Working w, o_quantity_shipped w))
    <$> rows Working.
Proof.
  intros Hfc Hpm. destruct Working as [cols ws].
  induction ws as [|w ws IH]; [done|].
  rewrite enrich_cons, fmap_app, IH. cbn [rows fmap list_fmap]. clear IH.
  change (?x :: ?l) with ([x] ++ l) at 2. f_equal.
  unfold enrich, merge_fc. cbn [rows]. rewrite merge_left_one.
  pose proof (filter_unique_key (fun f => normalize_value (FC f)) FC_table
                (normalize_value (o_fulfillment_center_id w)) Hfc) as Hlen.
  pose proof (filter_unique_key lookup_key PM_lookup (o_sku w) Hpm) as Hlen'.
  destruct (filter _ FC_table) as [|f0 [|f1 fs]]; [| |cbn in Hlen; lia];
    cbn [fmap list_fmap mbind list_bind app]; rewrite merge_left_one;
    (destruct (filter _ PM_lookup) as [|p0 [|p1 ps]]; [| |cbn in Hlen'; lia]);
    reflexivity.
Qed.

Lemma enrich_one_line_per_order_witness :
  let Working :=
    Table ["fulfillment-center-id"; "ship-state"; "quantity-shipped"; "sku"]
          [ Order (Str "ded3") (Str "Delhi") NaN (Str "S1") 10 NaN;
            Order (Str "BLR7") (Str "Goa") NaN (Str "S9") 5 NaN ] in
  (fun l => (fulfillment_center_id l, ship_state_original l, quantity_shipped l))
    <$> enrich Working [FcRow (Str "DED3") (Str "Delhi") (Str "North")]
                       [PmRow (Str "S1") (Str "A")]
  = [(Str "ded3", Str "Delhi", 10); (Str "BLR7", Str "Goa", 5)].
Proof.
  intros Working.
  apply (enrich_one_line_per_order Working
           [FcRow (Str "DED3") (Str "Delhi") (Str "North")]
           [PmRow (Str "S1") (Str "A")]).
  - compute_done.
  - compute_done.
Defined.

(** X15: an order without a code is joined as well: a missing code gets the
    key of the text [nan] and is given the state and cluster of an FC
    row whose code is missing, and a blank code, which has no key, is
    given those of an FC row whose code is blank. *)
Theorem merge_fc_missing_codes (w : order) (f : fc_row) (FC_table : list fc_row) :
  f ∈ FC_table ->
  (o_fulfillment_center_id w = NaN /\ FC f = NaN)
  \/ (exists a b, o_fulfillment_center_id w = Str a /\ FC f = Str b
                  /\ PyStr.strip a = "" /\ PyStr.strip b = "") ->
  (w, Some f) ∈ merge_fc [w] FC_table.
Proof.
  intros Hf H. unfold merge_fc. apply elem_of_merge_left.
  split; [by apply list_elem_of_singleton|]. split; [done|].
  destruct H as [[-> ->]|(a & b & -> & -> & Ha & Hb)]; [done|].
  unfold normalize_value. cbn [py_str]. by rewrite Ha, Hb.
Qed.

Lemma merge_fc_missing_codes_witness :
  let w := Order NaN (Str "Goa") NaN (Str "S1") 5 NaN in
  let f := FcRow NaN (Str "Delhi") (Str "North") in
  (w, Some f) ∈ merge_fc [w] [FcRow (Str "DED3") (Str "Goa") (Str "West"); f].
Proof.
  intros w f. apply (merge_fc_missing_codes w f).
  - right. left.
  - by left.
Defined.

(** X16: the join with the FC table does not see the letter case and the
    surrounding whitespace of the code of an order. *)
Theorem merge_fc_case_and_padding (w1 w2 : order) (a b : string)
    (FC_table : list fc_row) :
  o_fulfillment_center_id w1 = Str a ->
  o_fulfillment_center_id w2 = Str b ->
  variant same_case a b ->
  (merge_fc [w1] FC_table).*2 = (merge_fc [w2] FC_table).*2.
Proof.
  intros H1 H2 Hab. unfold merge_fc. rewrite !merge_left_one, H1, H2.
  assert (Hk : normalize_value (Str a) = normalize_value (Str b)).
  { unfold normalize_value. cbn [py_str]. by rewrite (variant_upper_strip a b Hab). }
  rewrite Hk.
  destruct (filter _ FC_table) as [|f fs]; [done|].
  by rewrite <- !list_fmap_compose.
Qed.

Lemma merge_fc_case_and_padding_witness :
  (merge_fc [Order (Str " ded3 ") NaN NaN NaN 1 NaN]
            [FcRow (Str "Ded3") (Str "Delhi") NaN]).*2
  = (merge_fc [Order (Str "DED3") NaN NaN NaN 2 NaN]
              [FcRow (Str "Ded3") (Str "Delhi") NaN]).*2.
Proof.
  apply (merge_fc_case_and_padding _ _ " ded3 " "DED3"); [done|done|].
  apply (Variant same_case " " " " "" "" "ded3" "DED3"); try reflexivity.
  repeat constructor.
Defined.

(** ** The index of the pivots *)

#[local] Instance string_leb_total : Total (fun a b : string => Is_true (String.leb a b)).
Proof.
  intros a b. destruct (String.leb_total a b) as [H|H]; [left|right]; by rewrite H.
Qed.

Lemma key_compare_antisym a b : key_compare a b = CompOpp (key_compare b a).
Proof.
  unfold key_compare.
  rewrite (String.compare_antisym a.1.1 b.1.1).
  destruct (String.compare b.1.1 a.1.1); cbn; [|done..].
  rewrite (String.compare_antisym a.1.2 b.1.2).
  destruct (String.compare b.1.2 a.1.2); cbn; [|done..].
  apply String.compare_antisym.
Qed.

#[local] Instance key_leb_total : Total (fun a b : key => Is_true (key_leb a b)).
Proof.
  intros a b. unfold key_leb. rewrite (key_compare_antisym b a).
  destruct (key_compare a b); cbn; auto.
Qed.

#[local] Instance row_leb_total :
  Total (fun a b : key * list Z => Is_true (key_leb a.1 b.1)).
Proof. intros a b. apply key_leb_total. Qed.

Lemma Sorted_fmap_fst {I : Type} (le : I -> I -> bool) (F : I -> I * list Z) ks :
  (forall i, (F i).1 = i) ->
  Sorted (fun a b => Is_true (le a b)) ks ->
  Sorted (fun a b : I * list Z => Is_true (le a.1 b.1)) (F <$> ks).
Proof.
  intros HF. induction 1 as [|k ks Hs IH Hhd]; [constructor|].
  cbn. constructor; [done|].
  destruct Hhd as [|k' ks' Hk]; cbn; constructor. by rewrite !HF.
Qed.

Section PivotIndex.
Variable Working : list line.

(** X17: both detailed pivots have one leaf row for each group of lines, in
    the increasing order of the index. *)
Theorem detailed_pivots_index (pivot : frame key) :
  pivot = detailed_pivot Working \/ pivot = inventory_pivot Working ->
  NoDup (rows pivot).*1
  /\ Sorted (fun a b => Is_true (key_leb a b)) (rows pivot).*1
  /\ length (rows pivot) = length (remove_dups (omap detail_index Working)).
Proof.
  intros Hpivot.
  assert (exists F, rows pivot = F <$> sorted_keys key_leb (omap detail_index Working)
                    /\ forall i, (F i).1 = i) as (F & HF & Hfst).
  { destruct Hpivot as [-> | ->].
    - destruct (pivot_with_grand_total_shape key_leb detail_index RIS_Status Working)
        as (F & HF & Hleaf). exists F. split; [done|]. intros i. apply Hleaf.
    - destruct (inventory_columns_shape key_leb detail_index RIS_by_Table Working)
        as (F & HF & Hleaf). exists F. split; [done|]. intros i. apply Hleaf. }
  assert (Hidx : (rows pivot).*1 = sorted_keys key_leb (omap detail_index Working)).
  { rewrite HF, <- list_fmap_compose.
    rewrite <- (list_fmap_id (sorted_keys _ _)) at 2.
    apply Forall_fmap_ext, Forall_forall. intros i _. apply Hfst. }
  rewrite Hidx, HF, length_fmap. split; [apply sorted_keys_NoDup|]. split.
  - apply (Sorted_merge_sort _).
  - unfold sorted_keys. by rewrite merge_sort_Permutation.
Qed.

(** X18: the inventory placement pivot always has the columns ["Non RIS"],
    ["RIS"] and ["Grand Total"], in this order, and three numbers in
    every row. *)
Theorem inventory_pivot_columns :
  columns (inventory_pivot Working) = ["Non RIS"; "RIS"; "Grand Total"]
  /\ forall r, r ∈ rows (inventory_pivot Working) -> length r.2 = 3%nat.
Proof.
  unfold inventory_pivot, add_grand_total, pivot_table.
  destruct (statuses_cases detail_index RIS_by_Table Working) as [E|[E|[E|E]]];
    rewrite E; (split; [reflexivity|]); cbn -[Z.add];
    rewrite <- ?list_fmap_compose;
    by intros r (i & -> & _)%list_elem_of_fmap.
Qed.

(** X19: the two detailed pivots have the same leaf rows up to the split in
    two columns: the same index and the same ["Grand Total"] in each
    row. *)
Theorem detailed_pivots_same_totals :
  (fun r => (r.1, value0 (columns (detailed_pivot Working)) r "Grand Total"))
    <$> rows (detailed_pivot Working)
  = (fun r => (r.1, value0 (columns (inventory_pivot Working)) r "Grand Total"))
    <$> rows (inventory_pivot Working).
Proof.
  destruct (pivot_with_grand_total_shape key_leb detail_index RIS_Status Working)
    as (F & HF & Hleaf).
  destruct (inventory_columns_shape key_leb detail_index RIS_by_Table Working)
    as (G & HG & Hleaf').
  unfold detailed_pivot, inventory_pivot in *. rewrite HF, HG.
  rewrite <- !list_fmap_compose. apply Forall_fmap_ext, Forall_forall.
  intros i _. cbn [compose].
  destruct (Hleaf i) as (-> & _ & _ & ->), (Hleaf' i) as (-> & _ & _ & ->).
  by rewrite !(group_quantity key_leb).
Qed.
End PivotIndex.

Lemma detailed_pivots_index_witness :
  let Working :=
    [ Line (Str "DED3") (Str "Goa") (Str "Goa") 5 (Str "Delhi") (Str "North")
           Non_RIS (Str "B") Non_RIS;
      Line (Str "DED3") (Str "Delhi") (Str "Delhi") 10 (Str "Delhi") (Str "North")
           RIS (Str "A") Non_RIS;
      Line (Str "DED3") (Str "Goa") (Str "Goa") 2 (Str "Delhi") (Str "North")
           Non_RIS (Str "B") Non_RIS ] in
  let pivot := inventory_pivot Working in
  NoDup (rows pivot).*1
  /\ Sorted (fun a b => Is_true (key_leb a b)) (rows pivot).*1
  /\ length (rows pivot) = length (remove_dups (omap detail_index Working)).
Proof.
  intros Working pivot. apply (detailed_pivots_index Working pivot). by right.
Defined.

(** ** The table with totals *)

(** X20: the rows of a pivot with totals are in the increasing order of the
    index up to the last one, the grand total, which stays last
    whatever its label; with it the table has one row more than the
    leaves, the groups by brand and state and the brands. *)
Theorem with_totals_sorted (pivot : frame key) :
  exists body,
    rows (with_totals pivot) = body ++ [grand_total pivot]
    /\ Sorted (fun a b : key * list Z => Is_true (key_leb a.1 b.1)) body
    /\ length body
       = (length (rows pivot)
          + length (remove_dups ((fun r : key * list Z => r.1.1) <$> rows pivot))
          + length (remove_dups ((fun r : key * list Z => r.1.1.1) <$> rows pivot)))%nat.
Proof.
  eexists. split; [reflexivity|]. unfold sort_index. cbn [rows]. split.
  - apply (Sorted_merge_sort _).
  - rewrite merge_sort_Permutation, !length_app.
    unfold state_totals, brand_totals, groupby_sum, sorted_keys. cbn [rows].
    rewrite !length_fmap, !merge_sort_Permutation. lia.
Qed.

(** X21: a brand that has a fulfillment state of its own name gets a state
    subtotal and a brand subtotal under the same index. *)
Theorem subtotals_same_index (pivot : frame key) (b s : string) (vs : list Z) :
  ((b, b, s), vs) ∈ rows pivot ->
  (b, b +:+ " Total", "") ∈ (rows (state_totals pivot)).*1
  /\ (b, b +:+ " Total", "") ∈ (rows (brand_totals pivot)).*1.
Proof.
  intros Hr. unfold state_totals, brand_totals, groupby_sum. cbn [rows].
  rewrite <- !list_fmap_compose. split.
  - apply list_elem_of_fmap. exists (b, b). split; [done|].
    apply elem_of_sorted_keys.
    by apply (list_elem_of_fmap_2 (fun r : key * list Z => r.1.1) _ ((b, b, s), vs)).
  - apply list_elem_of_fmap. exists b. split; [done|].
    apply elem_of_sorted_keys.
    by apply (list_elem_of_fmap_2 (fun r : key * list Z => r.1.1.1) _ ((b, b, s), vs)).
Qed.

Lemma subtotals_same_index_witness :
  let pivot :=
    detailed_pivot
      [ Line (Str "DED3") (Str "Goa") (Str "Goa") 5 (Str "Delhi") (Str "North")
             Non_RIS (Str "Delhi") Non_RIS ] in
  ("Delhi", "Delhi Total", "") ∈ (rows (state_totals pivot)).*1
  /\ ("Delhi", "Delhi Total", "") ∈ (rows (brand_totals pivot)).*1.
Proof.
  intros pivot. apply (subtotals_same_index pivot "Delhi" "Goa" [5; 5]).
  left.
Defined.

(** ** The display of a pivot with totals *)

Lemma occurs_app_r c s t : occurs c t = true -> occurs c (s +:+ t) = true.
Proof.
  intros Ht. induction s as [|a s IH]; [done|].
  change (String a s +:+ t) with (String a (s +:+ t)).
  cbn [occurs]. rewrite IH. apply orb_true_r.
Qed.

(** X22: in the display the state subtotals and the brand subtotals of a
    brand have the same index, the indented brand alone: the display
    does not tell a state subtotal from the brand subtotal, nor the
    state subtotals of a brand from each other. *)
Theorem display_subtotals (pivot : frame key) (r : key * list Z) :
  r ∈ rows (state_totals pivot) \/ r ∈ rows (brand_totals pivot) ->
  display_index r.1 = ("  " +:+ r.1.1.1, "", "").
Proof.
  intros [Hr|Hr].
  - unfold state_totals, groupby_sum in Hr. cbn [rows] in Hr.
    apply list_elem_of_fmap in Hr as (r' & -> & _).
    cbn [fst snd display_index].
    by rewrite (occurs_app_r "Total" r'.1.2 " Total" eq_refl).
  - unfold brand_totals, groupby_sum in Hr. cbn [rows] in Hr.
    apply list_elem_of_fmap in Hr as (r' & -> & _).
    cbn [fst snd display_index].
    by rewrite (occurs_app_r "Total" r'.1 " Total" eq_refl).
Qed.

Lemma display_subtotals_witness :
  let pivot :=
    detailed_pivot
      [ Line (Str "DED3") (Str "Goa") (Str "Goa") 5 (Str "Delhi") (Str "North")
             Non_RIS (Str "A") Non_RIS ] in
  display_index ("A", "Delhi Total", "") = ("  A", "", "").
Proof.
  intros pivot.
  apply (display_subtotals pivot (("A", "Delhi Total", ""), [5; 5])).
  left. left.
Defined.

(** A row whose fulfillment state does not contain [Total] keeps its
    index in the display; so do the leaves of such states and, its label
    being in the brand position, the grand total. *)
Lemma display_keeps_other_rows (brand fstate sstate : string) :
  occurs "Total" fstate = false ->
  display_index (brand, fstate, sstate) = (brand, fstate, sstate).
Proof.
  intros H. cbn [display_index]. rewrite H. by case_decide; subst.
Qed.


(** A leaf whose fulfillment state contains [Total] is displayed as a
    subtotal of its brand: its states are not shown. *)
Lemma display_hides_total_states (brand fstate sstate : string) :
  occurs "Total" fstate = true ->
  display_index (brand, fstate, sstate) = ("  " +:+ brand, "", "").
Proof. intros H. cbn [display_index]. by rewrite H. Qed.

(** The display changes the index only: the columns, the number of rows
    and the numbers of every row are those of the frame. *)
Lemma format_pivot_display_values (df : frame key) :
  columns (format_pivot_display df) = columns df
  /\ (rows (format_pivot_display df)).*2 = (rows df).*2.
Proof.
  split; [done|]. unfold format_pivot_display. cbn [rows].
  by rewrite <- list_fmap_compose.
Qed.

(** ** The rows of the brand summaries *)

Section SummaryTotals.
Variable status_of : line -> status.
Variable Working : list line.

(** The quantity of a status is that of the brands for this status. *)
Lemma status_quantity_brands c :
  sumZ ((fun b => quantity brand_index status_of Working b c)
          <$> sorted_keys String.leb (omap brand_index Working))
  = status_quantity status_of Working c.
Proof.
  unfold status_quantity, with_brand, quantity.
  rewrite list_filter_filter.
  rewrite (list_filter_iff _ (fun l => is_Some (brand_index l) /\ status_of l = c))
    by (intros l; tauto).
  rewrite <- list_filter_filter.
  rewrite <- (sum_by_group brand_index quantity_shipped
                (sorted_keys String.leb (omap brand_index Working))
                (filter (fun l => status_of l = c) Working)).
  - apply sumZ_fmap_ext. intros b _. by rewrite list_filter_filter.
  - apply sorted_keys_NoDup.
  - intros l b [_ Hl]%list_elem_of_filter Hb.
    apply (elem_of_pivot_keys String.leb). by exists l.
Qed.

Lemma summaries_add_up :
  exists brands total,
    summaries status_of Working = brands ++ [total]
    /\ (forall r, r ∈ summaries status_of Working ->
                  s_Grand_Total r = s_Non_RIS r + s_RIS r)
    /\ s_Non_RIS total = sumZ (s_Non_RIS <$> brands)
    /\ s_RIS total = sumZ (s_RIS <$> brands)
    /\ s_Grand_Total total = sumZ (s_Grand_Total <$> brands).
Proof.
  eexists _, _. split; [reflexivity|]. split; [|split; [|split]].
  - intros r. unfold summaries.
    rewrite elem_of_app, list_elem_of_fmap, list_elem_of_singleton.
    intros [(b & -> & _)| ->]; cbn.
    + symmetry. apply brand_quantity_statuses.
    + symmetry. apply with_brand_statuses.
  - cbn. rewrite <- list_fmap_compose. symmetry. apply status_quantity_brands.
  - cbn. rewrite <- list_fmap_compose. symmetry. apply status_quantity_brands.
  - cbn. rewrite <- list_fmap_compose. symmetry. apply with_brand_groups.
Qed.
End SummaryTotals.

Lemma summary_rows_sums (Working : list line) (rs : list summary_row) :
  brand_summary Working = Some rs \/ inventory_brand_summary Working = Some rs ->
  (forall r, r ∈ rs -> s_Grand_Total r = s_Non_RIS r + s_RIS r)
  /\ (rs <> [] ->
      exists brands total,
        rs = brands ++ [total]
        /\ s_Non_RIS total = sumZ (s_Non_RIS <$> brands)
        /\ s_RIS total = sumZ (s_RIS <$> brands)
        /\ s_Grand_Total total = sumZ (s_Grand_Total <$> brands)).
Proof.
  intros Hrs.
  assert (rs = [] \/ exists st, rs = summaries st Working) as [-> | [st ->]].
  { destruct Hrs as [Hrs|Hrs].
    - right. exists RIS_Status. by apply brand_summary_rows.
    - apply inventory_brand_summary_rows in Hrs as [-> | ->]; [by left|].
      right. by exists RIS_by_Table. }
  - split; [by intros r ?%elem_of_nil|done].
  - destruct (summaries_add_up st Working) as (brands & total & E & Hrow & HN & HR & HT).
    split; [done|]. intros _. by exists brands, total.
Qed.

(** X23: in both brand summaries the ["Grand Total"] of every row is its
    ["Non RIS"] plus its ["RIS"], and the last row holds, in each of
    the three columns, the sum of the rows of the brands. *)
Theorem summary_rows_add_up (Working : list line) (rs : list summary_row) :
  brand_summary Working = Some rs \/ inventory_brand_summary Working = Some rs ->
  (forall r, r ∈ rs -> s_Grand_Total r = s_Non_RIS r + s_RIS r)
  /\ (rs <> [] ->
      exists brands total,
        rs = brands ++ [total]
        /\ s_Non_RIS total = sumZ (s_Non_RIS <$> brands)
        /\ s_RIS total = sumZ (s_RIS <$> brands)
        /\ s_Grand_Total total = sumZ (s_Grand_Total <$> brands)).
Proof. apply summary_rows_sums. Qed.

(** X24: the two percentages of a row with a total other than 0 add up
    to 1. *)
Theorem summary_percentages_add_up (Working : list line) (rs : list summary_row)
    (r : summary_row) :
  brand_summary Working = Some rs \/ inventory_brand_summary Working = Some rs ->
  r ∈ rs ->
  s_Grand_Total r <> 0 ->
  exists p q : Q,
    s_Non_RIS_pct r = Finite p /\ s_RIS_pct r = Finite q /\ (p + q == 1)%Q.
Proof.
  intros Hrs Hr Hne.
  destruct (summary_rows_sums Working rs Hrs) as [Hrow _].
  specialize (Hrow r Hr).
  assert (Hpct : s_Non_RIS_pct r = fillna_0 (truediv (s_Non_RIS r) (s_Grand_Total r))
                 /\ s_RIS_pct r = fillna_0 (truediv (s_RIS r) (s_Grand_Total r))).
  { assert (rs = [] \/ exists st, rs = summaries st Working) as [-> | [st ->]].
    { destruct Hrs as [Hrs|Hrs].
      - right. exists RIS_Status. by apply brand_summary_rows.
      - apply inventory_brand_summary_rows in Hrs as [-> | ->]; [by left|].
        right. by exists RIS_by_Table. }
    - by apply elem_of_nil in Hr.
    - unfold summaries in Hr.
      rewrite elem_of_app, list_elem_of_fmap, list_elem_of_singleton in Hr.
      by destruct Hr as [(b & -> & _)| ->]. }
  destruct Hpct as [-> ->]. unfold truediv.
  rewrite !decide_False by done. cbn [fillna_0].
  eexists _, _. split; [done|]. split; [done|].
  rewrite Hrow in *. rewrite inject_Z_plus.
  field. intros H0. apply Hne.
  rewrite <- inject_Z_plus in H0. by apply (inject_Z_injective _ 0).
Qed.

Lemma summary_percentages_add_up_witness :
  let Working :=
    [ Line (Str "DED3") (Str "Delhi") (Str "Delhi") 10 (Str "Delhi") (Str "North")
           RIS (Str "A") Non_RIS;
      Line (Str "DED3") (Str "Goa") (Str "Goa") 5 (Str "Delhi") (Str "North")
           Non_RIS (Str "A") Non_RIS ] in
  let r := summary "A" 5 10 15 in
  exists p q : Q,
    s_Non_RIS_pct r = Finite p /\ s_RIS_pct r = Finite q /\ (p + q == 1)%Q.
Proof.
  intros Working r.
  refine (summary_percentages_add_up Working [r; summary "Grand Total" 5 10 15] r _ _ _).
  - left. by vm_compute.
  - left.
  - by vm_compute.
Defined.

Lemma summary_rows_add_up_witness :
  let Working :=
    [ Line (Str "DED3") (Str "Delhi") (Str "Delhi") 10 (Str "Delhi") (Str "North")
           RIS (Str "A") Non_RIS;
      Line (Str "DED3") (Str "Goa") (Str "Goa") 5 (Str "Delhi") (Str "North")
           Non_RIS (Str "B") Non_RIS ] in
  let rs := [summary "A" 0 10 10; summary "B" 5 0 5; summary "Grand Total" 5 10 15] in
  brand_summary Working = Some rs
  /\ exists brands total,
       rs = brands ++ [total]
       /\ s_Non_RIS total = sumZ (s_Non_RIS <$> brands)
       /\ s_RIS total = sumZ (s_RIS <$> brands)
       /\ s_Grand_Total total = sumZ (s_Grand_Total <$> brands).
Proof.
  intros Working rs.
  assert (H : brand_summary Working = Some rs) by (by vm_compute).
  split; [exact H|].
  refine (proj2 (summary_rows_add_up Working rs (or_introl H)) _). done.
Defined.

(** ** When the summaries can be built *)

Section SummarySuccess.
Variable status_of : line -> status.
Variable Working : list line.

Lemma pivot_table_margins_None :
  pivot_table_margins status_of Working = None
  <-> "Grand Total" ∈ omap brand_index Working.
Proof.
  assert (Hfst : (rows (pivot_table String.leb brand_index status_of Working)).*1
                 = sorted_keys String.leb (omap brand_index Working)).
  { unfold pivot_table. cbn [rows]. rewrite <- list_fmap_compose.
    apply list_fmap_id. }
  rewrite <- (elem_of_sorted_keys String.leb (omap brand_index Working)), <- Hfst.
  unfold pivot_table_margins. cbn zeta.
  destruct (rows (pivot_table String.leb brand_index status_of Working)) eqn:E.
  - split; [done|by intros ?%elem_of_nil].
  - case_decide; split; done.
Qed.

Ltac summary_row_is_Some :=
  unfold with_percentages; cbn [rows columns];
  apply mapM_is_Some;
  rewrite ?fmap_app, <- ?list_fmap_compose;
  repeat (apply Forall_app; split);
  (apply Forall_forall; intros x Hx;
   first [ apply list_elem_of_singleton in Hx as ->
         | apply list_elem_of_fmap in Hx as (i & -> & _) ];
   by eexists).

Lemma state_summary_is_Some :
  is_Some (t ← pivot_table_margins status_of Working;
           if label_in "Non RIS" (columns t) && label_in "RIS" (columns t)
              && label_in "Grand Total" (columns t)
           then with_percentages t else None)
  <-> statuses brand_index status_of Working = [Non_RIS; RIS]
      /\ "Grand Total" ∉ omap brand_index Working.
Proof.
  rewrite <- pivot_table_margins_None. split.
  - intros [rs Hrs].
    destruct (pivot_table_margins status_of Working) as [t|] eqn:Et; [|done].
    split; [|done]. cbn [mbind option_bind] in Hrs. revert Hrs.
    apply pivot_table_margins_Some in Et as [[_ ->]| ->]; unfold pivot_table;
      destruct (statuses_cases brand_index status_of Working) as [E|[E|[E|E]]];
      rewrite E; cbn -[Z.add with_percentages]; done.
  - intros [E Hsome].
    destruct (pivot_table_margins status_of Working) as [t|] eqn:Et; [|done].
    cbn [mbind option_bind].
    apply pivot_table_margins_Some in Et as [[Hrows ->]| ->].
    + exfalso. revert Hrows. unfold pivot_table. cbn [rows].
      intros Hkeys%fmap_nil_inv.
      assert (HR : RIS ∈ statuses brand_index status_of Working)
        by (rewrite E; compute_done).
      apply elem_of_statuses in HR as (l & Hl & [b Hb] & _).
      assert (Hin : b ∈ sorted_keys String.leb (omap brand_index Working))
        by (apply elem_of_pivot_keys; by exists l).
      rewrite Hkeys in Hin. by apply elem_of_nil in Hin.
    + unfold pivot_table. rewrite E. cbn -[Z.add with_percentages].
      summary_row_is_Some.
Qed.
Lemma inventory_summary_is_Some :
  is_Some (t ← pivot_table_margins status_of Working;
           let t := ensure_column "Non RIS" (ensure_column "RIS" t) in
           let t := reorder ["Non RIS"; "RIS"; "Grand Total"] t in
           let t := if label_in "Grand Total" (columns t) then t
                    else add_grand_total t in
           with_percentages t)
  <-> "Grand Total" ∉ omap brand_index Working.
Proof.
  rewrite <- pivot_table_margins_None. split.
  - intros [rs Hrs].
    by destruct (pivot_table_margins status_of Working).
  - intros Hsome.
    destruct (pivot_table_margins status_of Working) as [t|] eqn:Et; [|done].
    cbn [mbind option_bind].
    apply pivot_table_margins_Some in Et as [[Hrows ->]| ->].
    + revert Hrows. unfold pivot_table. cbn [rows columns].
      intros Hkeys%fmap_nil_inv. rewrite Hkeys.
      destruct (statuses_cases brand_index status_of Working) as [E|[E|[E|E]]];
        rewrite E; cbn -[Z.add]; by eexists.
    + unfold pivot_table.
      destruct (statuses_cases brand_index status_of Working) as [E|[E|[E|E]]];
        rewrite E; cbn -[Z.add with_percentages]; summary_row_is_Some.
Qed.

Lemma statuses_both :
  statuses brand_index status_of Working = [Non_RIS; RIS]
  <-> (exists l, l ∈ Working /\ is_Some (brand_index l) /\ status_of l = RIS)
      /\ (exists l, l ∈ Working /\ is_Some (brand_index l) /\ status_of l = Non_RIS).
Proof.
  rewrite <- !(elem_of_statuses brand_index status_of Working).
  destruct (statuses_cases brand_index status_of Working) as [E|[E|[E|E]]];
    rewrite E;
    (split; [intros [=]; split; compute_done|intros [H1 H2]]); try done;
    exfalso; revert H1 H2; rewrite ?elem_of_cons, ?elem_of_nil;
    intuition discriminate.
Qed.

Lemma no_such_brand (b : string) :
  b ∉ omap brand_index Working
  <-> forall l, l ∈ Working -> Brand l <> Str b.
Proof.
  rewrite list_elem_of_omap. split.
  - intros Hno l Hl Hb. apply Hno. exists l. split; [done|].
    unfold brand_index. by rewrite Hb.
  - intros Hno (l & Hl & Hb). apply (Hno l Hl).
    unfold brand_index in Hb. by destruct (Brand l) as [|s]; simplify_eq/=.
Qed.
End SummarySuccess.

Lemma brand_summary_is_Some (Working : list line) :
  is_Some (brand_summary Working)
  <-> (exists l, l ∈ Working /\ is_Some (brand_index l) /\ RIS_Status l = RIS)
      /\ (exists l, l ∈ Working /\ is_Some (brand_index l) /\ RIS_Status l = Non_RIS)
      /\ (forall l, l ∈ Working -> Brand l <> Str "Grand Total").
Proof.
  unfold brand_summary.
  rewrite state_summary_is_Some, statuses_both, no_such_brand. tauto.
Qed.

Lemma inventory_brand_summary_is_Some (Working : list line) :
  is_Some (inventory_brand_summary Working)
  <-> forall l, l ∈ Working -> Brand l <> Str "Grand Total".
Proof.
  unfold inventory_brand_summary.
  by rewrite inventory_summary_is_Some, no_such_brand.
Qed.

(** X25: the state-match summary by brand can be built exactly when some
    line with a brand is "RIS", some line with a brand is "Non RIS" and
    no brand is called "Grand Total": its percentages read the columns
    ["RIS"] and ["Non RIS"] of the pivot, which has a column only for a
    label that occurs. *)
Theorem brand_summary_needs_both_labels (Working : list line) :
  is_Some (brand_summary Working)
  <-> (exists l, l ∈ Working /\ is_Some (brand_index l) /\ RIS_Status l = RIS)
      /\ (exists l, l ∈ Working /\ is_Some (brand_index l) /\ RIS_Status l = Non_RIS)
      /\ (forall l, l ∈ Working -> Brand l <> Str "Grand Total").
Proof. apply brand_summary_is_Some. Qed.

(** X26: the inventory summary by brand adds the label columns that the
    pivot lacks, so it can be built whatever labels occur, and with no
    branded line at all: only a brand called "Grand Total" prevents
    it. *)
Theorem inventory_brand_summary_needs_no_label (Working : list line) :
  is_Some (inventory_brand_summary Working)
  <-> forall l, l ∈ Working -> Brand l <> Str "Grand Total".
Proof. apply inventory_brand_summary_is_Some. Qed.

